(** * Segmentation-map utilities of [semantic_segmentation]

    A shallow embedding of [semantic_segmentation/utils.py] and of the
    [SegmapManager] class of [semantic_segmentation/segmap_manager.py],
    together with the properties of these functions that the specification
    of the repository states.

    Conventions of the embedding.
    - The code is Python 3: [/] is true division and [round] returns an
      integer.  Python integers are [Z].
    - Finite [float64] values are the rationals they denote ([Q]).  The
      operations that [_proper_round] applies to them (comparison,
      [math.floor], [math.ceil], the cast to an integer) are exact on
      floats, so for that function the embedding loses nothing.  The
      quotients and products that [_rescale_image_and_markup] forms are
      taken exactly; the inputs used as counterexamples are chosen so that
      the float computation is exact as well.  The scores that
      [np_softmax] normalises go through [np.exp], which leaves the
      rationals: there floats are taken as real numbers ([R]).
    - A raised exception is the [Raise] branch of [result].
    - The libraries the code calls (OpenCV, Pillow, Shapely) and the
      network configuration object are interfaces: type classes whose
      fields are the calls the code makes. *)

From Stdlib Require Import Ascii String ZArith QArith Qround Qabs List Bool Lia.
From Stdlib Require Import Permutation Lqa Reals.
From Stdlib Require Lra.
Import ListNotations.

Local Open Scope Z_scope.

(** ** Python values and exceptions *)

Inductive exception : Type :=
| AssertionError (msg : option string)
| ValueError (msg : string)
| AttributeError (msg : string)
| ZeroDivisionError
| OverflowError.

Inductive result (A : Type) : Type :=
| Return (a : A)
| Raise (e : exception).

Arguments Return {A} a.
Arguments Raise {A} e.

Definition bind {A B : Type} (r : result A) (k : A -> result B) : result B :=
  match r with
  | Return a => k a
  | Raise e => Raise e
  end.

Notation "x <- r ;; k" := (bind r (fun x => k))
  (at level 61, r at next level, right associativity).

(** [assert cond] and [assert cond, msg]. *)
Definition py_assert (cond : bool) (msg : option string) : result unit :=
  if cond then Return tt else Raise (AssertionError msg).

(** ** Numbers *)

Definition Qgtb (a b : Q) : bool := negb (Qle_bool a b).

(** [round(x)] of Python 3 on a float: nearest integer, ties to even. *)
Definition py_round (q : Q) : Z :=
  let f := Qfloor q in
  match Qcompare (q - inject_Z f) (1 # 2) with
  | Lt => f
  | Gt => f + 1
  | Eq => if Z.even f then f else f + 1
  end.

(** Truncation toward zero, the C conversion of a float to an integer. *)
Definition Qtrunc (q : Q) : Z := Z.quot (Qnum q) (Zpos (Qden q)).

Definition int32_min : Z := - 2 ^ 31.
Definition int32_max : Z := 2 ^ 31 - 1.

(** Two's complement reduction to 32 bits: what [astype(np.int32)] does to
    an integer array. *)
Definition int32_wrap (z : Z) : Z := (z + 2 ^ 31) mod 2 ^ 32 - 2 ^ 31.

(** An integer NumPy can hold in a 64-bit array, signed or unsigned. *)
Definition held_in_64_bits (z : Z) : bool := (- 2 ^ 63 <=? z) && (z <? 2 ^ 64).

(** [np.ravel(ints).astype(np.int32)] on Python integers.  NumPy holds
    integers of at most 64 bits in a numeric array, which the cast reduces
    to 32 bits; an integer beyond 64 bits makes the array one of Python
    objects, and the cast raises [OverflowError]. *)
Definition astype_int32 (ints : list Z) : result (list Z) :=
  if forallb held_in_64_bits ints then Return (map int32_wrap ints)
  else Raise OverflowError.

(** [np.array(floats).astype(np.int32)], per element: the fractional part
    is dropped.  Outside the 32-bit range the conversion is platform
    defined; the properties below are stated inside the range. *)
Definition float_astype_int32 (q : Q) : Z := int32_wrap (Qtrunc q).

(** A coordinate whose floor and ceiling both fit in [np.int32]. *)
Definition fits_int32 (q : Q) : Prop :=
  int32_min <= Qfloor q /\ Qceiling q <= int32_max.

(** ** Sequences *)

(** [l[::2]] *)
Fixpoint slice_even {A : Type} (l : list A) : list A :=
  match l with
  | [] => []
  | x :: t => x :: match t with
                   | [] => []
                   | _ :: t' => slice_even t'
                   end
  end.

(** [l[1::2]] *)
Definition slice_odd {A : Type} (l : list A) : list A := slice_even (tl l).

(** [np.ravel(list(zip(xs, ys)))] *)
Definition ravel_zip {A : Type} (xs ys : list A) : list A :=
  flat_map (fun p => [fst p; snd p]) (combine xs ys).

(** [sum(1 for _x in xs if _x > x)] *)
Definition count_greater (xs : list Q) (x : Q) : nat :=
  length (filter (fun _x => Qgtb _x x) xs).

(** [a / b] on Python numbers. *)
Definition truediv (a b : Q) : result Q :=
  if Qeq_bool b 0 then Raise ZeroDivisionError else Return (a / b)%Q.

(** [a % b] on Python integers; the sign follows the divisor, as for
    [Z.modulo]. *)
Definition py_mod (a b : Z) : result Z :=
  if b =? 0 then Raise ZeroDivisionError else Return (a mod b).

(** [a // b] on Python integers. *)
Definition py_floordiv (a b : Z) : result Z :=
  if b =? 0 then Raise ZeroDivisionError else Return (a / b).

(** [[f(x) for x in l]] where [f] may raise. *)
Fixpoint map_result {A B : Type} (f : A -> result B) (l : list A) : result (list B) :=
  match l with
  | [] => Return []
  | a :: t => b <- f a ;; r <- map_result f t ;; Return (b :: r)
  end.

(** [np.array(flat).reshape((-1, 2))] *)
Fixpoint reshape_pairs (flat : list Q) : result (list (Q * Q)) :=
  match flat with
  | [] => Return []
  | x :: y :: t => r <- reshape_pairs t ;; Return ((x, y) :: r)
  | _ :: [] => Raise (ValueError "cannot reshape array into shape (2)")
  end.

(** [pairs.reshape((-1,))] *)
Definition reshape_flat (pairs : list (Q * Q)) : list Q :=
  flat_map (fun p => [fst p; snd p]) pairs.

(** ** Markup objects *)

Definition point : Type := (Q * Q)%type.

(** Modelled from the spec: the classes [ObjectMarkup] and
    [ClassifiedObjectMarkup] of [semantic_segmentation/data_markup.py],
    which is not among the sources.  The specification describes them as a
    flat coordinate sequence [bbox], an optional integer [object_type], and
    a copy-with-replacement factory that keeps the variant and the class id
    and replaces the coordinates. *)
Inductive Markup : Type :=
| ObjectMarkup (bbox : list Q)
| ClassifiedObjectMarkup (bbox : list Q) (object_type : Z).

Definition bbox (m : Markup) : list Q :=
  match m with
  | ObjectMarkup b => b
  | ClassifiedObjectMarkup b _ => b
  end.

Definition object_type (m : Markup) : option Z :=
  match m with
  | ObjectMarkup _ => None
  | ClassifiedObjectMarkup _ t => Some t
  end.

Definition create_same_markup (m : Markup) (new_bbox : list Q) : Markup :=
  match m with
  | ObjectMarkup _ => ObjectMarkup new_bbox
  | ClassifiedObjectMarkup _ t => ClassifiedObjectMarkup new_bbox t
  end.

(** Modelled from the spec: the network configuration object, whose class
    is not among the sources; its fields are the methods the specification
    lists under the NetConfig contract. *)
Record net_config : Type := {
  get_scale : Z;
  get_side_multiple : Z;
  get_max_side : Z;
  is_classification_supported : bool;
  get_class_name : option Z -> string
}.

(** ** Images and the libraries *)

(** A single-channel image: its [size] is [(width, height)]. *)
Record image : Type := {
  size : Z * Z;
  getpixel : Z -> Z -> Z
}.

Definition in_image (im_size : Z * Z) (x y : Z) : bool :=
  (0 <=? x) && (x <? fst im_size) && (0 <=? y) && (y <? snd im_size).

(** Pillow.  [polygon_pixels xy x y] tells whether [ImageDraw.polygon]
    called on the coordinate list [xy] paints the pixel [(x, y)];
    [resample_bicubic im size' x y] is the pixel [(x, y)] of
    [im.resize(size', resample=Image.BICUBIC)]. *)
Class Pillow : Type := {
  polygon_pixels : list Z -> Z -> Z -> bool;
  resample_bicubic : image -> Z * Z -> Z -> Z -> Z
}.

(** [Image.new(mode='L', size=size, color=color)] *)
Definition Image_new (new_size : Z * Z) (color : Z) : result image :=
  if (fst new_size <? 0) || (snd new_size <? 0) then
    Raise (ValueError "Width and height must be >= 0")
  else Return {| size := new_size; getpixel := fun _ _ => color |}.

(** [ImageDraw.Draw(im).polygon(xy, fill=fill)], for a fill value in the
    range of an 8-bit pixel. *)
Definition draw_polygon `{Pillow} (im : image) (xy : list Z) (fill : Z) : image :=
  {| size := size im;
     getpixel := fun x y =>
       if in_image (size im) x y && polygon_pixels xy x y then fill
       else getpixel im x y |}.

(** [im.resize(size=new_size, resample=Image.BICUBIC)] *)
Definition Image_resize `{Pillow} (im : image) (new_size : Z * Z) : result image :=
  if (fst new_size <=? 0) || (snd new_size <=? 0) then
    Raise (ValueError "height and width must be > 0")
  else Return {| size := new_size; getpixel := resample_bicubic im new_size |}.

(** Shapely.  [polygon_is_valid quad] is [Polygon(quad).is_valid];
    [convex_hull_exterior quad] is
    [MultiPoint(quad).convex_hull.exterior.coords], which does not exist
    when the hull degenerates to a point or a segment. *)
Class Shapely : Type := {
  polygon_is_valid : list point -> bool;
  convex_hull_exterior : list point -> result (list point)
}.

Definition contour : Type := list (Z * Z).

(** The result of [cv2.minAreaRect]: centre, side lengths, angle. *)
Record rotated_rect : Type := {
  rect_center : point;
  rect_size : point;
  rect_angle : Q
}.

(** OpenCV (3.x).  [findContours seg_map] is the list of contours that
    [cv2.findContours(np.array(seg_map, dtype=np.uint8),
    mode=cv2.RETR_EXTERNAL, method=cv2.CHAIN_APPROX_SIMPLE)] returns;
    [boxPoints] returns the four corners of a rotated rectangle. *)
Class OpenCV : Type := {
  findContours : image -> list contour;
  contourArea : contour -> Q;
  minAreaRect : contour -> rotated_rect;
  boxPoints : rotated_rect -> point * point * point * point
}.

(** [corners.reshape((8,))] on the 4x2 array of [cv2.boxPoints]. *)
Definition reshape8 (corners : point * point * point * point) : list Q :=
  let '(p1, p2, p3, p4) := corners in
  [fst p1; snd p1; fst p2; snd p2; fst p3; snd p3; fst p4; snd p4].

(** ** Further interfaces *)

(** The file system: [path_exists p] is [os.path.exists(p)]. *)
Class FileSystem : Type := {
  path_exists : string -> bool
}.

Fixpoint ends_with_slash (p : string) : bool :=
  match p with
  | EmptyString => false
  | String c EmptyString => Ascii.eqb c "/"%char
  | String _ rest => ends_with_slash rest
  end.

(** [os.path.join(a, b)] on a POSIX system. *)
Definition path_join (a b : string) : string :=
  if String.prefix "/" b then b
  else if String.eqb a EmptyString || ends_with_slash a then String.append a b
  else String.append a (String.append "/" b).

(** An integer array: its [shape] and its items by index. *)
Record ndarray : Type := {
  shape : list Z;
  item : list Z -> Z
}.

(** [a.ndim] *)
Definition ndim (a : ndarray) : Z := Z.of_nat (length (shape a)).

(** [np.squeeze(a, -1)] on an array whose last axis has length 1. *)
Definition squeeze_last (a : ndarray) : ndarray :=
  {| shape := removelast (shape a);
     item := fun idx => item a (idx ++ [0]) |}.

(** A Pillow image obtained from an array: [Image.fromarray(a, mode)] and
    [im.convert(mode)]. *)
Inductive array_image : Type :=
| Image_fromarray (a : ndarray) (mode : string)
| Image_convert (im : array_image) (mode : string).

(** [im.mode] *)
Definition image_mode (im : array_image) : string :=
  match im with
  | Image_fromarray _ mode => mode
  | Image_convert _ mode => mode
  end.

(** NumPy and OpenCV on floating-point arrays.  The arithmetic of floats
    that rounds is kept abstract: [float_mul a b] is the float64 product,
    [float32_mul_int a n] the float32 product of a float32 by a Python
    integer.  [scores] is the type of float arrays of class scores, with
    the array operations [np_softmax] uses; [np_max_keepdims] raises on an
    empty axis.  [filled_contour_mask shape cnt] is the mask that
    [cv2.drawContours(np.zeros(shape), [cnt], -1, 1, -1)] leaves,
    [masked_mean ps mask] is [ps[mask.astype(np.bool)].mean(axis=0)]. *)
Class FloatArrays : Type := {
  float_mul : Q -> Q -> Q;
  float32_mul_int : Q -> Z -> Q;
  scores : Type;
  mask : Type;
  np_max_keepdims : scores -> Z -> result scores;
  np_subtract : scores -> scores -> scores;
  np_exp : scores -> scores;
  np_sum_keepdims : scores -> Z -> scores;
  np_divide : scores -> scores -> scores;
  filled_contour_mask : Z * Z -> contour -> mask;
  masked_mean : scores -> mask -> result scores;
  np_argmax : scores -> Z
}.

Definition int64_wrap (z : Z) : Z := (z + 2 ^ 63) mod 2 ^ 64 - 2 ^ 63.

(** [floats.astype(int)], per element, with a 64-bit [int]. *)
Definition float_astype_int (q : Q) : Z := int64_wrap (Qtrunc q).

(** [np.round(x)], per element: a float with an integer value, ties to
    even. *)
Definition np_round (q : Q) : Q := inject_Z (py_round q).

(** [a * b] for one-dimensional [a] and [b] of length 8: an [a] of length 1
    is stretched, other lengths do not broadcast. *)
Definition broadcast8 {A : Type} (a : list A) : result (list A) :=
  match a with
  | [x] => Return (repeat x 8)
  | _ => if (length a =? 8)%nat then Return a
         else Raise (ValueError "operands could not be broadcast together")
  end.

(** Modelled from the spec: the augmentation collaborator
    [SegLinksImageAugmentation] of [semantic_segmentation/augmentation.py],
    which is not among the sources.  Given an image, its markup and the
    configuration it yields a transformed image and a transformed markup. *)
Class Augmentation : Type := {
  get_modified_image : image -> list Markup -> net_config -> image;
  get_modified_markup : image -> list Markup -> net_config -> list Markup
}.

(** ** utils.py *)

Module Utils.

(** The value is paired with the records sent to [logging.info]. *)
Definition fix_quadrangle `{Shapely} (quad : list point)
  : list string * result (list point) :=
  let is_valid := polygon_is_valid quad in
  if negb is_valid then
    (["polygon invalid"%string],
     coords <- convex_hull_exterior quad ;;
     Return (firstn 4 coords))
  else ([], Return quad).

Definition get_contours_and_boxes `{OpenCV} (seg_map : image) (min_area : Q)
  : result (list contour * list (list Q)) :=
  let cnts := findContours seg_map in
  let cnts := filter (fun cnt => Qgtb (contourArea cnt) min_area) cnts in
  let rects := map minAreaRect cnts in
  let boxes := map (fun rect => reshape8 (boxPoints rect)) rects in
  _ <- py_assert (length boxes =? length cnts)%nat None ;;
  Return (cnts, boxes).

(** The second component of the result: [None], a list of class ids or a
    list of class names. *)
Inductive object_types : Type :=
| TypeIds (ids : list (option Z))
| TypeNames (names : list string).

Definition extract_bboxes_and_object_types (image_markup : list Markup)
    (nc : net_config) (object_types_format : string)
  : result (list (list Q) * option object_types) :=
  let bboxes := map bbox image_markup in
  obj_types <-
    (if is_classification_supported nc then
       if String.eqb object_types_format "id" then
         Return (Some (TypeIds (map object_type image_markup)))
       else if String.eqb object_types_format "name" then
         Return (Some (TypeNames
                   (map (fun m => get_class_name nc (object_type m)) image_markup)))
       else Raise (ValueError "Unsupported object type format")
     else Return None) ;;
  Return (bboxes, obj_types).

(** The shapes are those of [img.ndim] and [img.shape[-1]]. *)
Definition pillow_rgb_fromarray (img : ndarray) : result array_image :=
  if (ndim img =? 3) && (last (shape img) 0 =? 3) then
    Return (Image_fromarray img "RGB"%string)
  else
    let image := img in
    let image :=
      if (ndim image =? 3) && (last (shape image) 0 =? 1)
      then squeeze_last image else image in
    _ <- py_assert (ndim image =? 2) None ;;
    let pillow_image :=
      Image_convert (Image_fromarray image "L"%string) "RGB"%string in
    Return pillow_image.

(** [np.array([xscale, yscale] * 4)] *)
Definition scale_array (xscale yscale : Q) : list Q :=
  [xscale; yscale; xscale; yscale; xscale; yscale; xscale; yscale].

Definition rescale_bbox `{FloatArrays} (bbox : list Q) (xscale yscale : Q)
  : result (list Z) :=
  let scale := scale_array xscale yscale in
  bbox <- broadcast8 bbox ;;
  Return (map (fun p => float_astype_int (float_mul (fst p) (snd p)))
              (combine bbox scale)).

(** [bboxes] is a Python list of coordinate lists.  A list whose rows
    differ in length does not multiply; NumPy reports it with one of
    several exceptions, which the model does not tell apart. *)
Definition rescale_bboxes `{FloatArrays} (bboxes : list (list Q)) (xscale yscale : Q)
  : result (list (list Z)) :=
  match bboxes with
  | [] => Return []
  | first :: _ =>
    let scale := scale_array xscale yscale in
    if forallb (fun row => (length row =? length first)%nat) bboxes then
      map_result
        (fun row =>
           row <- broadcast8 row ;;
           Return (map (fun p => float_astype_int (float_mul (fst p) (snd p)))
                       (combine row scale)))
        bboxes
    else Raise (ValueError "operands could not be broadcast together")
  end.

(** The extensions tried, in order. *)
Definition image_exts : list string :=
  [".png"; ".tiff"; ".tif"; ".bmp"; ".jpg"]%string.

Definition find_corresponding_image `{FileSystem}
    (images_folder_path fname_without_ext : string) : result string :=
  match find (fun image_ext =>
                path_exists (path_join images_folder_path
                               (String.append fname_without_ext image_ext)))
             image_exts with
  | Some image_ext =>
    Return (path_join images_folder_path
              (String.append fname_without_ext image_ext))
  | None =>
    Raise (ValueError
             (String.append "Image corresponding to fname "
                (String.append fname_without_ext " not found (skipping markup)")))
  end.

Definition np_softmax `{FloatArrays} (logits : scores) (axis : Z) : result scores :=
  m <- np_max_keepdims logits axis ;;
  let x := np_subtract logits m in
  let x := np_exp x in
  Return (np_divide x (np_sum_keepdims x axis)).

End Utils.

(** ** SegmapManager *)

Module SegmapManager.

(** [math.floor(x) if n_greater > 1 else math.ceil(x)] *)
Definition round_vertex (x : Q) (n_greater : nat) : Z :=
  if (1 <? n_greater)%nat then Qfloor x else Qceiling x.

Definition _proper_round (markup_bbox : list Q) : result (list Z) :=
  if negb (length markup_bbox =? 8)%nat then
    Return (map float_astype_int32 markup_bbox)
  else
    let xs := slice_even markup_bbox in
    let ys := slice_odd markup_bbox in
    _ <- py_assert ((length xs =? length ys)%nat && (length ys =? 4)%nat) None ;;
    let xs_greater := map (count_greater xs) xs in
    let ys_greater := map (count_greater ys) ys in
    let xs := map (fun p => round_vertex (fst p) (snd p)) (combine xs xs_greater) in
    let ys := map (fun p => round_vertex (fst p) (snd p)) (combine ys ys_greater) in
    astype_int32 (ravel_zip xs ys).

(** [max(1, round(side / side_multiple)) * side_multiple] *)
Definition to_multiple (side : Q) (side_multiple : Z) : result Z :=
  q <- truediv side (inject_Z side_multiple) ;;
  Return (Z.max 1 (py_round q) * side_multiple).

(** Lines 153-165 of [_rescale_image_and_markup]: the new width and
    height. *)
Definition new_size (w h side_multiple max_side : Z) : result (Z * Z) :=
  if Z.max w h >? max_side then
    downscale <- truediv (inject_Z max_side) (inject_Z (Z.max h w)) ;;
    if w >? h then
      let new_w := max_side in
      new_h <- to_multiple (inject_Z h * downscale) side_multiple ;;
      Return (new_w, new_h)
    else
      new_w <- to_multiple (inject_Z w * downscale) side_multiple ;;
      let new_h := max_side in
      Return (new_w, new_h)
  else
    new_w <- to_multiple (inject_Z w) side_multiple ;;
    new_h <- to_multiple (inject_Z h) side_multiple ;;
    Return (new_w, new_h).

(** [(np.array(bbox).reshape((-1, 2)) * scales).reshape((-1,))] *)
Definition scale_bbox (scales : Q * Q) (bbox : list Q) : result (list Q) :=
  pairs <- reshape_pairs bbox ;;
  Return (reshape_flat
            (map (fun p => (fst p * fst scales, snd p * snd scales)%Q) pairs)).

Definition _rescale_image_and_markup `{Pillow} (im : image) (markup : list Markup)
    (nc : net_config) (max_side : option Z) : result (image * list Markup) :=
  let '(w, h) := size im in
  let side_multiple := get_side_multiple nc in
  let max_side :=
    match max_side with
    | None => get_max_side nc
    | Some v => v
    end in
  dims <- new_size w h side_multiple max_side ;;
  let '(new_w, new_h) := dims in
  resized_image <- Image_resize im (new_w, new_h) ;;
  match markup with
  | [] => Return (resized_image, markup)
  | _ =>
    sx <- truediv (inject_Z new_w) (inject_Z w) ;;
    sy <- truediv (inject_Z new_h) (inject_Z h) ;;
    resized_markup <-
      map_result (fun m => b <- scale_bbox (sx, sy) (bbox m) ;;
                           Return (create_same_markup m b)) markup ;;
    Return (resized_image, resized_markup)
  end.

(** The value passed as [fill] for one object (lines 97-102). *)
Definition fill_color (for_drawing : bool) (object_markup : Markup) : result Z :=
  if for_drawing then Return 255
  else
    let fill_color :=
      match object_markup with
      | ClassifiedObjectMarkup _ t => t + 1
      | ObjectMarkup _ => 1
      end in
    _ <- py_assert (fill_color <=? 255)
                   (Some "No more than 255 classes are supported"%string) ;;
    Return fill_color.

(** [_proper_round(object_markup.bbox / scale)] *)
Definition drawn_bbox (scale : Z) (object_markup : Markup) : result (list Z) :=
  _proper_round (map (fun c => c / inject_Z scale)%Q (bbox object_markup)).

(** One iteration of the loop of [build_segmentation_map]. *)
Definition draw_object `{Pillow} (scale : Z) (for_drawing : bool)
    (image_segmap : image) (object_markup : Markup) : result image :=
  xy <- drawn_bbox scale object_markup ;;
  fill <- fill_color for_drawing object_markup ;;
  Return (draw_polygon image_segmap xy fill).

(** The loop [for object_markup in markup]. *)
Fixpoint draw_markup `{Pillow} (scale : Z) (for_drawing : bool)
    (image_segmap : image) (markup : list Markup) : result image :=
  match markup with
  | [] => Return image_segmap
  | object_markup :: rest =>
    image_segmap <- draw_object scale for_drawing image_segmap object_markup ;;
    draw_markup scale for_drawing image_segmap rest
  end.

Definition build_segmentation_map `{Pillow} (im : image) (markup : list Markup)
    (scale : Z) (for_drawing : bool) : result image :=
  let '(w, h) := size im in
  wr <- py_mod w scale ;;
  divisible <- (if wr =? 0 then hr <- py_mod h scale ;; Return (hr =? 0)
                else Return false) ;;
  _ <- py_assert divisible None ;;
  sw <- py_floordiv w scale ;;
  sh <- py_floordiv h scale ;;
  image_segmap <- Image_new (sw, sh) 0 ;;
  draw_markup scale for_drawing image_segmap markup.

(** [np.round(box * scale).astype(int)] on a box of [cv2.boxPoints]. *)
Definition scale_box_up `{FloatArrays} (scale : Z) (box : list Q) : list Z :=
  map (fun c => float_astype_int (np_round (float32_mul_int c scale))) box.

(** The class id voted for one contour (lines 63-66). *)
Definition contour_class_id `{FloatArrays} (seg_map : image)
    (seg_map_class_ps : scores) (cnt : contour) : result Z :=
  let mask := filled_contour_mask (snd (size seg_map), fst (size seg_map)) cnt in
  class_logits <- masked_mean seg_map_class_ps mask ;;
  Return (np_argmax class_logits).

Definition postprocess `{OpenCV} `{FloatArrays} (seg_map : image)
    (seg_map_class_logits : option scores) (scale : Z) (min_area_threshold : Q)
  : result (list Markup) :=
  found <- Utils.get_contours_and_boxes seg_map min_area_threshold ;;
  let '(contours, boxes) := found in
  let boxes := map (scale_box_up scale) boxes in
  match seg_map_class_logits with
  | None => Return (map (fun bbox => ObjectMarkup (map inject_Z bbox)) boxes)
  | Some seg_map_class_logits =>
    seg_map_class_ps <- Utils.np_softmax seg_map_class_logits (-1) ;;
    class_ids <- map_result (contour_class_id seg_map seg_map_class_ps) contours ;;
    Return (map (fun p => ClassifiedObjectMarkup (map inject_Z (fst p)) (snd p))
                (combine boxes class_ids))
  end.

Definition _augment `{Pillow} `{Augmentation} (im : image) (markup : list Markup)
    (nc : net_config) : result (image * list Markup) :=
  rescaled <- _rescale_image_and_markup im markup nc None ;;
  let '(im, markup) := rescaled in
  let aug_image := get_modified_image im markup nc in
  let aug_markup := get_modified_markup im markup nc in
  Return (aug_image, aug_markup).

Definition prepare_image_and_target `{Pillow} `{Augmentation} (im : image)
    (markup : list Markup) (nc : net_config) (augment : bool)
  : result (image * list Markup * image) :=
  augmented <- (if augment then _augment im markup nc
                else Return (im, markup)) ;;
  let '(im, markup) := augmented in
  rescaled <- _rescale_image_and_markup im markup nc None ;;
  let '(rescaled_image, rescaled_markup) := rescaled in
  segmentation_map <- build_segmentation_map rescaled_image rescaled_markup
                        (get_scale nc) false ;;
  Return (rescaled_image, rescaled_markup, segmentation_map).

End SegmapManager.

(** ** Stand-ins for the libraries

    Simple instances of the library interfaces, on which the model runs on
    concrete inputs.  The properties below hold for every instance. *)

(** Paints the bounding box of the vertices, which is what a polygon with
    axis-parallel sides covers. *)
Definition bounding_box_pixels (xy : list Z) (x y : Z) : bool :=
  let xs := slice_even xy in
  let ys := slice_odd xy in
  existsb (fun a => a <=? x) xs && existsb (fun a => x <=? a) xs &&
  existsb (fun b => b <=? y) ys && existsb (fun b => y <=? b) ys.

(** Nearest-neighbour resampling. *)
Definition nearest_resample (im : image) (size' : Z * Z) (x y : Z) : Z :=
  getpixel im (x * fst (size im) / fst size') (y * snd (size im) / snd size').

Definition sample_pillow : Pillow :=
  {| polygon_pixels := bounding_box_pixels;
     resample_bicubic := nearest_resample |}.

(** Twice the signed area of the triangle [p q r]. *)
Definition cross (p q r : point) : Q :=
  ((fst q - fst p) * (snd r - snd p) - (snd q - snd p) * (fst r - fst p))%Q.

(** The segments [p1 p2] and [p3 p4] cross at an interior point. *)
Definition segments_cross (p1 p2 p3 p4 : point) : bool :=
  Qgtb 0 (cross p1 p2 p3 * cross p1 p2 p4) &&
  Qgtb 0 (cross p3 p4 p1 * cross p3 p4 p2).

(** A quadrilateral is taken as valid when opposite sides do not cross and
    it encloses some area. *)
Definition simple_quadrangle (quad : list point) : bool :=
  match quad with
  | [a; b; c; d] =>
    negb (segments_cross a b c d) && negb (segments_cross b c d a) &&
    negb (Qeq_bool (cross a b c + cross a c d) 0)
  | _ => false
  end.

(** Uncrosses a quadrilateral by exchanging the ends of a crossing side. *)
Definition uncross_quadrangle (quad : list point) : result (list point) :=
  match quad with
  | [a; b; c; d] =>
    if segments_cross a b c d then Return [a; c; b; d; a]
    else if segments_cross b c d a then Return [a; b; d; c; a]
    else Raise (AttributeError "object has no attribute 'exterior'")
  | _ => Raise (AttributeError "object has no attribute 'exterior'")
  end.

Definition sample_shapely : Shapely :=
  {| polygon_is_valid := simple_quadrangle;
     convex_hull_exterior := uncross_quadrangle |}.

(** An image of the given size with every pixel 0. *)
Definition blank_image (w h : Z) : image :=
  {| size := (w, h); getpixel := fun _ _ => 0 |}.

(** ** The rounding rule as the specification words it *)

(** Number of the other vertices whose coordinate is strictly greater. *)
Definition others_greater (others : list Q) (v : Q) : nat :=
  length (filter (fun o => Qgtb o v) others).

(** Floor when strictly more than one of the others is strictly greater,
    ceiling otherwise. *)
Definition spec_round (v : Q) (others : list Q) : Z :=
  if (1 <? others_greater others v)%nat then Qfloor v else Qceiling v.

(** Conversion toward zero: the fractional part is dropped. *)
Definition toward_zero (q : Q) : Z :=
  if Qle_bool 0 q then Qfloor q else Qceiling q.

(** Nearest integer: an integer at distance at most one half. *)
Definition is_nearest_integer (q : Q) (z : Z) : Prop :=
  (Qabs (q - inject_Z z) <= 1 # 2)%Q.

(** ** Notions used in the statements *)

(** The cap in force: the argument [max_side] when given, the configured
    one otherwise. *)
Definition cap_in_force (nc : net_config) (max_side : option Z) : Z :=
  match max_side with
  | None => get_max_side nc
  | Some v => v
  end.

(** The fill value the specification gives for an object: 255 in drawing
    mode, 1 for an object without class, the class id plus one otherwise. *)
Definition spec_fill (for_drawing : bool) (o : Markup) : Z :=
  if for_drawing then 255
  else match object_type o with
       | None => 1
       | Some t => t + 1
       end.

(** The object [o] paints the pixel [(x, y)] of a map of size [map_size]
    built at the given scale. *)
Definition paints `{Pillow} (scale : Z) (map_size : Z * Z) (o : Markup)
    (x y : Z) : bool :=
  match SegmapManager.drawn_bbox scale o with
  | Return xy => in_image map_size x y && polygon_pixels xy x y
  | Raise _ => false
  end.

(** Every coordinate of the markup, divided by the scale, fits in a 32-bit
    integer. *)
Definition markup_in_range (scale : Z) (markup : list Markup) : Prop :=
  Forall (fun o => Forall (fun c => fits_int32 (c / inject_Z scale)) (bbox o))
         markup.


(** The message of the assertion on the fill value. *)
Definition too_many_classes : exception :=
  AssertionError (Some "No more than 255 classes are supported"%string).

(** Two overlapping classified squares on a 200x200 image. *)
Definition scenario_markup : list Markup :=
  [ClassifiedObjectMarkup [10; 10; 50; 10; 50; 50; 10; 50]%Q 2;
   ClassifiedObjectMarkup [40; 40; 90; 40; 90; 90; 40; 90]%Q 4].

(** Two classified squares that are apart on a 200x200 image. *)
Definition apart_markup : list Markup :=
  [ClassifiedObjectMarkup [10; 10; 50; 10; 50; 50; 10; 50]%Q 2;
   ClassifiedObjectMarkup [100; 100; 140; 100; 140; 140; 100; 140]%Q 4].

(** A configuration whose cap, 10, is not a multiple of its side multiple,
    3. *)
Definition coarse_config : net_config :=
  {| get_scale := 1; get_side_multiple := 3; get_max_side := 10;
     is_classification_supported := false;
     get_class_name := fun _ => EmptyString |}.

(** A configuration without classification support. *)
Definition detection_only_config : net_config :=
  {| get_scale := 4; get_side_multiple := 32; get_max_side := 512;
     is_classification_supported := false;
     get_class_name := fun _ => EmptyString |}.

(** Two markup objects of the same variant and class whose coordinates are
    equal as rational numbers. *)
Definition same_markup (a b : Markup) : Prop :=
  object_type a = object_type b /\ Forall2 Qeq (bbox a) (bbox b).

(** The same variant and class and as many coordinates. *)
Definition same_markup_shape (a b : Markup) : Prop :=
  object_type a = object_type b /\ length (bbox a) = length (bbox b).

(** A configuration with side multiple 32, cap 512 and scale 4. *)
Definition usual_config : net_config :=
  {| get_scale := 4; get_side_multiple := 32; get_max_side := 512;
     is_classification_supported := true;
     get_class_name := fun _ => EmptyString |}.

(** The object lies inside the image: its x-coordinates are between 0 and
    the width, its y-coordinates between 0 and the height. *)
Definition inside_image (im : image) (o : Markup) : Prop :=
  Forall (fun x => (0 <= x <= inject_Z (fst (size im)))%Q) (slice_even (bbox o)) /\
  Forall (fun y => (0 <= y <= inject_Z (snd (size im)))%Q) (slice_odd (bbox o)).

(** An image with positive dimensions and a markup whose coordinate
    sequences are sequences of pairs inside the image and whose class ids
    are at most 254. *)
Definition well_formed_input (im : image) (markup : list Markup) : Prop :=
  0 < fst (size im) /\ 0 < snd (size im) /\
  Forall (fun o => Nat.even (length (bbox o)) = true /\ spec_fill false o <= 255 /\
                   inside_image im o)
         markup.

(** The augmentation that changes nothing. *)
Definition no_augmentation : Augmentation :=
  {| get_modified_image := fun im _ _ => im;
     get_modified_markup := fun _ markup _ => markup |}.

(** Stand-ins for OpenCV and for the float arrays.  A map whose pixel
    (0, 0) is set has one contour, the border of a 4x4 square; the area of
    a contour is that of its polygon; the enclosing rectangle is the
    axis-parallel one.  Products are exact, scores are one vector of
    rationals, and in place of the exponential stands 1 / (1 - x), which is
    positive and increasing on the scores it is applied to. *)
Fixpoint shoelace (first : Z * Z) (cnt : list (Z * Z)) : Z :=
  match cnt with
  | [] => 0
  | p :: rest =>
    let q := match rest with
             | [] => first
             | q :: _ => q
             end in
    fst p * snd q - fst q * snd p + shoelace first rest
  end.

Definition polygon_area (cnt : contour) : Q :=
  match cnt with
  | [] => 0
  | first :: _ => Z.abs (shoelace first cnt) # 2
  end.

Definition bounding_rect (cnt : contour) : rotated_rect :=
  let xs := map fst cnt in
  let ys := map snd cnt in
  let x0 := fold_right Z.min (hd 0 xs) xs in
  let x1 := fold_right Z.max (hd 0 xs) xs in
  let y0 := fold_right Z.min (hd 0 ys) ys in
  let y1 := fold_right Z.max (hd 0 ys) ys in
  {| rect_center := ((x0 + x1) # 2, (y0 + y1) # 2);
     rect_size := (inject_Z (x1 - x0), inject_Z (y1 - y0));
     rect_angle := 0 |}.

Definition rect_corners (r : rotated_rect) : point * point * point * point :=
  let cx := fst (rect_center r) in
  let cy := snd (rect_center r) in
  let hw := (fst (rect_size r) / 2)%Q in
  let hh := (snd (rect_size r) / 2)%Q in
  ((cx - hw, cy - hh), (cx + hw, cy - hh), (cx + hw, cy + hh), (cx - hw, cy + hh))%Q.

Definition sample_opencv : OpenCV :=
  {| findContours := fun seg_map =>
       if getpixel seg_map 0 0 =? 0 then []
       else [[(0, 0); (0, 3); (3, 3); (3, 0)]];
     contourArea := polygon_area;
     minAreaRect := bounding_rect;
     boxPoints := rect_corners |}.

Definition sample_float_arrays : FloatArrays :=
  {| float_mul := Qmult;
     float32_mul_int := fun a n => (a * inject_Z n)%Q;
     scores := list Q;
     mask := unit;
     np_max_keepdims := fun a _ =>
       match a with
       | [] => Raise (ValueError "zero-size array to reduction operation maximum")
       | x :: rest =>
         Return [fold_right (fun u v => if Qle_bool u v then v else u) x rest]
       end;
     np_subtract := fun a m => map (fun u => (u - hd 0%Q m)%Q) a;
     np_exp := fun a => map (fun u => (1 / (1 - u))%Q) a;
     np_sum_keepdims := fun a _ => [fold_right Qplus 0%Q a];
     np_divide := fun a d => map (fun u => (u / hd 1%Q d)%Q) a;
     filled_contour_mask := fun _ _ => tt;
     masked_mean := fun ps _ => Return ps;
     np_argmax := fun a =>
       match a with
       | [] => 0
       | x :: rest =>
         snd (fold_left (fun acc u =>
                 let '(i, best, arg) := acc in
                 if Qle_bool u best then (i + 1, best, arg) else (i + 1, u, i))
               rest (1, x, 0))
       end |}.

(** NumPy's array operations on the score vector of one pixel, with floats
    taken as the real numbers they stand for.  [np.max] and [np.sum] with
    [keepdims=True] give a vector of one element, which subtraction and
    division broadcast; [np.max] raises on an empty vector.  The region of
    [masked_mean] is the pixel itself. *)
Fixpoint Rargmax (best : R) (arg i : Z) (l : list R) : Z :=
  match l with
  | [] => arg
  | u :: rest =>
    if Rlt_dec best u then Rargmax u i (i + 1) rest
    else Rargmax best arg (i + 1) rest
  end.

Definition real_scores : FloatArrays :=
  {| float_mul := Qmult;
     float32_mul_int := fun a n => (a * inject_Z n)%Q;
     scores := list R;
     mask := unit;
     np_max_keepdims := fun a _ =>
       match a with
       | [] => Raise (ValueError "zero-size array to reduction operation maximum")
       | x :: rest => Return [fold_right Rmax x rest]
       end;
     np_subtract := fun a m => map (fun v => (v - hd 0 m)%R) a;
     np_exp := fun a => map exp a;
     np_sum_keepdims := fun a _ => [fold_right Rplus 0%R a];
     np_divide := fun a d => map (fun v => (v / hd 1 d)%R) a;
     filled_contour_mask := fun _ _ => tt;
     masked_mean := fun ps _ => Return ps;
     np_argmax := fun a =>
       match a with
       | [] => 0
       | x :: rest => Rargmax x 0 1 rest
       end |}.

(** A 50x50 map whose pixel (0, 0) is set. *)
Definition marked_map : image :=
  {| size := (50, 50);
     getpixel := fun x y => if (x =? 0) && (y =? 0) then 3 else 0 |}.

(** A folder that holds [page1.bmp] and [page1.jpg]. *)
Definition sample_folder : FileSystem :=
  {| path_exists := fun p =>
       String.eqb p "scans/page1.bmp" || String.eqb p "scans/page1.jpg" |}.

(** An integer is stored in a float without loss. *)
Definition is_integer (q : Q) : Prop := exists z : Z, q = inject_Z z.

(** * Properties *)

Lemma int32_wrap_id z : int32_min <= z <= int32_max -> int32_wrap z = z.
Proof.
  unfold int32_min, int32_max, int32_wrap. intros H.
  rewrite Z.mod_small; lia.
Qed.

Lemma Qfloor_le_Qceiling q : Qfloor q <= Qceiling q.
Proof. rewrite Zle_Qle. apply Qle_floor_ceiling. Qed.

Lemma Qgtb_irrefl q : Qgtb q q = false.
Proof.
  unfold Qgtb. apply negb_false_iff. apply Qle_bool_iff. apply Qle_refl.
Qed.

Lemma Qgtb_lt (a b : Q) : Qgtb a b = true <-> (b < a)%Q.
Proof.
  unfold Qgtb. rewrite negb_true_iff. split.
  - intros E. apply Qnot_le_lt. intros Hle.
    apply Qle_bool_iff in Hle. congruence.
  - intros Hlt. destruct (Qle_bool a b) eqn:E; [| reflexivity].
    apply Qle_bool_iff in E. exfalso. exact (Qlt_not_le _ _ Hlt E).
Qed.

Lemma fits_int32_floor q : fits_int32 q -> int32_wrap (Qfloor q) = Qfloor q.
Proof.
  intros [Hlo Hhi]. apply int32_wrap_id.
  pose proof (Qfloor_le_Qceiling q). lia.
Qed.

Lemma fits_int32_ceiling q : fits_int32 q -> int32_wrap (Qceiling q) = Qceiling q.
Proof.
  intros [Hlo Hhi]. apply int32_wrap_id.
  pose proof (Qfloor_le_Qceiling q). lia.
Qed.

Lemma round_vertex_in_range q n :
  fits_int32 q ->
  int32_min <= SegmapManager.round_vertex q n <= int32_max.
Proof.
  intros [Hlo Hhi]. pose proof (Qfloor_le_Qceiling q).
  unfold SegmapManager.round_vertex. destruct (1 <? n)%nat; lia.
Qed.

(** Inside the 32-bit range the cast changes nothing. *)
Lemma astype_int32_in_range (ints : list Z) :
  Forall (fun z => int32_min <= z <= int32_max) ints ->
  astype_int32 ints = Return ints.
Proof.
  intros Hrange. unfold astype_int32.
  replace (forallb held_in_64_bits ints) with true.
  - f_equal. induction Hrange as [| z t Hz _ IH]; [reflexivity |].
    cbn [map]. rewrite int32_wrap_id by exact Hz. rewrite IH. reflexivity.
  - symmetry. apply forallb_forall. rewrite Forall_forall in Hrange.
    intros z Hz. specialize (Hrange z Hz).
    unfold held_in_64_bits, int32_min, int32_max in *.
    apply andb_true_intro. split; [apply Z.leb_le | apply Z.ltb_lt]; lia.
Qed.

Ltac rounded_in_range :=
  repeat (constructor; [apply round_vertex_in_range; assumption |]);
  constructor.

Lemma count_greater_skip_self (before after : list Q) (v : Q) :
  count_greater (before ++ v :: after) v = others_greater (before ++ after) v.
Proof.
  unfold count_greater, others_greater.
  rewrite !filter_app. cbn [filter]. rewrite Qgtb_irrefl. reflexivity.
Qed.

Lemma round_vertex_rule (before after : list Q) (v : Q) :
  SegmapManager.round_vertex v (count_greater (before ++ v :: after) v)
  = spec_round v (before ++ after).
Proof. rewrite count_greater_skip_self. reflexivity. Qed.

Ltac round_by_rule before after v :=
  let E := fresh "E" in
  pose proof (round_vertex_rule before after v) as E;
  cbn [app] in E; rewrite E; clear E.

(** C1. A quadrilateral [x0 y0 x1 y1 x2 y2 x3 y3] whose coordinates fit in
    a 32-bit integer is rounded coordinate by coordinate, the x-coordinates
    against the x-coordinates of the other three vertices and the
    y-coordinates against their y-coordinates: floor when strictly more
    than one of the other three is strictly greater, ceiling otherwise. *)
Theorem proper_round_quadrilateral (x0 y0 x1 y1 x2 y2 x3 y3 : Q) :
  Forall fits_int32 [x0; y0; x1; y1; x2; y2; x3; y3] ->
  SegmapManager._proper_round [x0; y0; x1; y1; x2; y2; x3; y3]
  = Return
      [spec_round x0 [x1; x2; x3]; spec_round y0 [y1; y2; y3];
       spec_round x1 [x0; x2; x3]; spec_round y1 [y0; y2; y3];
       spec_round x2 [x0; x1; x3]; spec_round y2 [y0; y1; y3];
       spec_round x3 [x0; x1; x2]; spec_round y3 [y0; y1; y2]].
Proof.
  intros Hfit.
  repeat match goal with
         | H : Forall _ (_ :: _) |- _ => inversion H; subst; clear H
         end.
  unfold SegmapManager._proper_round.
  cbn [length Nat.eqb negb slice_even slice_odd tl andb py_assert bind
       map combine ravel_zip flat_map fst snd app].
  rewrite astype_int32_in_range by rounded_in_range.
  round_by_rule (@nil Q) [x1; x2; x3] x0.
  round_by_rule (@nil Q) [y1; y2; y3] y0.
  round_by_rule [x0] [x2; x3] x1.
  round_by_rule [y0] [y2; y3] y1.
  round_by_rule [x0; x1] [x3] x2.
  round_by_rule [y0; y1] [y3] y2.
  round_by_rule [x0; x1; x2] (@nil Q) x3.
  round_by_rule [y0; y1; y2] (@nil Q) y3.
  reflexivity.
Qed.

Lemma proper_round_quadrilateral_witness :
  Forall fits_int32 [3 # 2; 1 # 2; 5 # 2; 3 # 2; 3 # 2; 5 # 2; 1 # 2; 3 # 2] /\
  SegmapManager._proper_round
    [3 # 2; 1 # 2; 5 # 2; 3 # 2; 3 # 2; 5 # 2; 1 # 2; 3 # 2]
  = Return
      [spec_round (3 # 2) [5 # 2; 3 # 2; 1 # 2]; spec_round (1 # 2) [3 # 2; 5 # 2; 3 # 2];
       spec_round (5 # 2) [3 # 2; 3 # 2; 1 # 2]; spec_round (3 # 2) [1 # 2; 5 # 2; 3 # 2];
       spec_round (3 # 2) [3 # 2; 5 # 2; 1 # 2]; spec_round (5 # 2) [1 # 2; 3 # 2; 3 # 2];
       spec_round (1 # 2) [3 # 2; 5 # 2; 3 # 2]; spec_round (3 # 2) [1 # 2; 3 # 2; 5 # 2]].
Proof.
  assert (Hfit : Forall fits_int32
                   [3 # 2; 1 # 2; 5 # 2; 3 # 2; 3 # 2; 5 # 2; 1 # 2; 3 # 2])
    by (repeat constructor; vm_compute; discriminate).
  split; [exact Hfit | apply proper_round_quadrilateral; exact Hfit].
Defined.

(** The diamond of the regression test: the vertex whose x-coordinate has
    one greater, one equal and one smaller neighbour goes to the ceiling. *)
Example proper_round_diamond :
  SegmapManager._proper_round
    [3 # 2; 1 # 2; 5 # 2; 3 # 2; 3 # 2; 5 # 2; 1 # 2; 3 # 2]
  = Return [2; 0; 3; 2; 2; 3; 0; 2].
Proof. reflexivity. Qed.

(** The tie of the rule: with one of the other three greater, one equal
    and one smaller, the coordinate goes to the ceiling. *)
Lemma spec_round_tie (v greater equal smaller : Q) :
  (v < greater)%Q -> (equal == v)%Q -> (smaller < v)%Q ->
  spec_round v [greater; equal; smaller] = Qceiling v.
Proof.
  intros Hg He Hs. unfold spec_round, others_greater. cbn [filter].
  rewrite (proj2 (Qgtb_lt greater v) Hg).
  assert (Heq : Qgtb equal v = false).
  { unfold Qgtb. apply negb_false_iff, Qle_bool_iff. rewrite He. apply Qle_refl. }
  assert (Hsm : Qgtb smaller v = false).
  { unfold Qgtb. apply negb_false_iff, Qle_bool_iff, Qlt_le_weak, Hs. }
  rewrite Heq, Hsm. reflexivity.
Qed.

(** ** Polygons that are not quadrilaterals *)

Lemma Qfloor_num_den q : Qfloor q = Qnum q / Zpos (Qden q).
Proof. destruct q; reflexivity. Qed.

Lemma Qtrunc_toward_zero q : Qtrunc q = toward_zero q.
Proof.
  unfold Qtrunc, toward_zero, Qceiling, Qle_bool.
  rewrite !Qfloor_num_den. destruct q as [n d]. cbn [Qnum Qden Qopp].
  rewrite Z.mul_1_r. cbn [Z.mul].
  destruct (0 <=? n) eqn:Hn.
  - apply Z.leb_le in Hn. apply Z.quot_div_nonneg; lia.
  - apply Z.leb_gt in Hn.
    rewrite <- (Z.opp_involutive n) at 1. rewrite Z.quot_opp_l by lia.
    rewrite Z.quot_div_nonneg by lia. reflexivity.
Qed.

Lemma toward_zero_fits q : fits_int32 q -> int32_wrap (toward_zero q) = toward_zero q.
Proof.
  intros H. unfold toward_zero.
  destruct (Qle_bool 0 q); [apply fits_int32_floor | apply fits_int32_ceiling]; exact H.
Qed.

(** What the cast of the fallback computes.  A coordinate sequence whose
    length is not 8 and whose coordinates fit in a 32-bit integer is
    converted coordinate by coordinate by dropping the fractional part:
    floor for a coordinate that is not negative, ceiling for a negative
    one. *)
Theorem proper_round_polygon_truncates (markup_bbox : list Q) :
  length markup_bbox <> 8%nat ->
  Forall fits_int32 markup_bbox ->
  SegmapManager._proper_round markup_bbox = Return (map toward_zero markup_bbox).
Proof.
  intros Hlen Hfit. unfold SegmapManager._proper_round.
  apply Nat.eqb_neq in Hlen. rewrite Hlen. cbn [negb].
  f_equal. apply map_ext_in. intros q Hq.
  rewrite Forall_forall in Hfit.
  unfold float_astype_int32. rewrite Qtrunc_toward_zero.
  apply toward_zero_fits, Hfit, Hq.
Qed.

Lemma proper_round_polygon_truncates_witness :
  length [3 # 4; 3 # 4; 11 # 4; 3 # 4; 11 # 4; 11 # 4] <> 8%nat /\
  Forall fits_int32 [3 # 4; 3 # 4; 11 # 4; 3 # 4; 11 # 4; 11 # 4] /\
  SegmapManager._proper_round [3 # 4; 3 # 4; 11 # 4; 3 # 4; 11 # 4; 11 # 4]
  = Return (map toward_zero [3 # 4; 3 # 4; 11 # 4; 3 # 4; 11 # 4; 11 # 4]).
Proof.
  assert (Hlen : length [3 # 4; 3 # 4; 11 # 4; 3 # 4; 11 # 4; 11 # 4] <> 8%nat)
    by (simpl; lia).
  assert (Hfit : Forall fits_int32 [3 # 4; 3 # 4; 11 # 4; 3 # 4; 11 # 4; 11 # 4])
    by (repeat constructor; vm_compute; discriminate).
  split; [exact Hlen | split; [exact Hfit |]].
  apply proper_round_polygon_truncates; assumption.
Defined.

(** C3.  The fallback is announced as rounding, and [postprocess] rounds
    with [np.round] before its cast, but the fallback casts without
    rounding: the triangle (3,3) (11,3) (11,11) divided by a scale of 4
    has the coordinates 0.75 and 2.75, which come out as 0 and 2, not as
    the nearest integers 1 and 3. *)
Lemma proper_round_polygon_not_nearest :
  length [3 # 4; 3 # 4; 11 # 4; 3 # 4; 11 # 4; 11 # 4] <> 8%nat /\
  SegmapManager._proper_round [3 # 4; 3 # 4; 11 # 4; 3 # 4; 11 # 4; 11 # 4]
  = Return [0; 0; 2; 0; 2; 2] /\
  ~ Forall2 is_nearest_integer
      [3 # 4; 3 # 4; 11 # 4; 3 # 4; 11 # 4; 11 # 4] [0; 0; 2; 0; 2; 2].
Proof.
  split; [simpl; lia | split; [reflexivity |]].
  intros H. inversion H as [| q z l l' Hnear _]; subst.
  vm_compute in Hnear. apply Hnear. reflexivity.
Qed.

(** ** The rescaled dimensions *)

Lemma truediv_inject_Z (a : Q) (z : Z) :
  z <> 0 -> truediv a (inject_Z z) = Return (a / inject_Z z)%Q.
Proof.
  intros Hz. unfold truediv.
  destruct (Qeq_bool (inject_Z z) 0) eqn:E; [| reflexivity].
  apply Qeq_bool_iff in E. unfold Qeq in E. cbn in E. lia.
Qed.

Lemma py_round_le (q : Q) (k : Z) : (q <= inject_Z k)%Q -> py_round q <= k.
Proof.
  intros Hq. unfold py_round.
  pose proof (Qfloor_resp_le _ _ Hq) as Hf. rewrite Qfloor_Z in Hf.
  destruct (Z.eq_dec (Qfloor q) k) as [Heq | Hne].
  - assert (Hlt : (q - inject_Z (Qfloor q) < 1 # 2)%Q).
    { rewrite Heq. apply Qle_lt_trans with (y := 0%Q); [| reflexivity].
      apply (Qplus_le_l _ _ (inject_Z k)). ring_simplify. exact Hq. }
    rewrite (proj1 (Qlt_alt _ _) Hlt). lia.
  - destruct (Qcompare _ _); [destruct (Z.even _) | |]; lia.
Qed.

Lemma to_multiple_bounds (side : Q) (m k : Z) :
  0 < m -> 1 <= k -> (side / inject_Z m <= inject_Z k)%Q ->
  exists v, SegmapManager.to_multiple side m = Return v /\
            v mod m = 0 /\ m <= v <= k * m.
Proof.
  intros Hm Hk Hside. unfold SegmapManager.to_multiple.
  rewrite truediv_inject_Z by lia. cbn [bind].
  eexists. split; [reflexivity |].
  pose proof (py_round_le _ _ Hside) as Hr.
  split; [apply Z.mod_mul; lia | nia].
Qed.

Lemma scaled_side_le (a x m k : Z) :
  0 < a <= x -> 0 < m -> 0 <= k ->
  (inject_Z a * (inject_Z (k * m) / inject_Z x) / inject_Z m <= inject_Z k)%Q.
Proof.
  intros Ha Hm Hk.
  assert (Hx : ~ (inject_Z x == 0)%Q) by (unfold Qeq; cbn; lia).
  assert (Hm' : ~ (inject_Z m == 0)%Q) by (unfold Qeq; cbn; lia).
  rewrite inject_Z_mult.
  setoid_replace (inject_Z a * (inject_Z k * inject_Z m / inject_Z x) / inject_Z m)%Q
    with (inject_Z a / inject_Z x * inject_Z k)%Q by (field; split; assumption).
  setoid_replace (inject_Z k) with (1 * inject_Z k)%Q at 2 by ring.
  apply Qmult_le_compat_r.
  - apply Qle_shift_div_r.
    + change 0%Q with (inject_Z 0). rewrite <- Zlt_Qlt. lia.
    + rewrite Qmult_1_l. rewrite <- Zle_Qle. lia.
  - change 0%Q with (inject_Z 0). rewrite <- Zle_Qle. exact Hk.
Qed.

Lemma plain_side_le (a m k : Z) :
  a <= k * m -> 0 < m -> (inject_Z a / inject_Z m <= inject_Z k)%Q.
Proof.
  intros Ha Hm. apply Qle_shift_div_r.
  - change 0%Q with (inject_Z 0). rewrite <- Zlt_Qlt. exact Hm.
  - rewrite <- inject_Z_mult, <- Zle_Qle. exact Ha.
Qed.

(** The dimensions computed for a cap that is a positive multiple of the
    side multiple. *)
Lemma new_size_bounds (w h m k : Z) :
  0 < w -> 0 < h -> 0 < m -> 1 <= k ->
  exists W H, SegmapManager.new_size w h m (k * m) = Return (W, H) /\
    W mod m = 0 /\ H mod m = 0 /\ Z.max W H <= k * m /\ m <= W /\ m <= H.
Proof.
  intros Hw Hh Hm Hk. unfold SegmapManager.new_size.
  destruct (Z.max w h >? k * m) eqn:Hbig.
  - rewrite truediv_inject_Z by lia. cbn [bind].
    destruct (w >? h) eqn:Hwh.
    + destruct (to_multiple_bounds
                  (inject_Z h * (inject_Z (k * m) / inject_Z (Z.max h w))) m k)
        as (v & Ev & Hmod & Hv); [lia | lia | apply scaled_side_le; lia |].
      rewrite Ev. cbn [bind]. exists (k * m), v.
      repeat split; [apply Z.mod_mul | | | |]; nia.
    + destruct (to_multiple_bounds
                  (inject_Z w * (inject_Z (k * m) / inject_Z (Z.max h w))) m k)
        as (v & Ev & Hmod & Hv); [lia | lia | apply scaled_side_le; lia |].
      rewrite Ev. cbn [bind]. exists v, (k * m).
      repeat split; [| apply Z.mod_mul | | |]; nia.
  - assert (Hsmall : Z.max w h <= k * m)
      by (destruct (Z.gtb_spec (Z.max w h) (k * m)); [discriminate | lia]).
    destruct (to_multiple_bounds (inject_Z w) m k) as (vw & Ew & Hmw & Hvw);
      [lia | lia | apply plain_side_le; lia |].
    destruct (to_multiple_bounds (inject_Z h) m k) as (vh & Eh & Hmh & Hvh);
      [lia | lia | apply plain_side_le; lia |].
    rewrite Ew. cbn [bind]. rewrite Eh. cbn [bind]. exists vw, vh.
    repeat split; try assumption; lia.
Qed.

Lemma reshape_pairs_even_length (flat : list Q) :
  (Nat.even (length flat) = true -> exists r, reshape_pairs flat = Return r) /\
  (forall a, Nat.even (length (a :: flat)) = true ->
             exists r, reshape_pairs (a :: flat) = Return r).
Proof.
  induction flat as [| b t [IHeven IHodd]].
  - split; [intros _; exists []; reflexivity | intros a Ha; discriminate Ha].
  - split; [apply IHodd |].
    intros a Ha. destruct (IHeven Ha) as [r Er].
    exists ((a, b) :: r). cbn [reshape_pairs]. rewrite Er. reflexivity.
Qed.

Lemma map_result_returns {A B : Type} (f : A -> result B) (l : list A) :
  Forall (fun a => exists b, f a = Return b) l ->
  exists r, map_result f l = Return r.
Proof.
  induction 1 as [| a t [b Eb] _ [r Er]].
  - exists []. reflexivity.
  - exists (b :: r). cbn [map_result]. rewrite Eb. cbn [bind]. rewrite Er. reflexivity.
Qed.

(** C2, as amended.  For positive image dimensions, a positive side
    multiple [m] and a cap [M] that is a positive multiple of [m], the
    rescaler returns, for every markup whose coordinate sequences are
    sequences of pairs, an image whose dimensions [(W, H)] are multiples of
    [m], at least [m] and at most [M]. *)
Theorem rescale_dimensions `{Pillow} (im : image) (markup : list Markup)
    (nc : net_config) (max_side : option Z) :
  0 < fst (size im) -> 0 < snd (size im) ->
  0 < get_side_multiple nc ->
  0 < cap_in_force nc max_side ->
  (get_side_multiple nc | cap_in_force nc max_side) ->
  Forall (fun o => Nat.even (length (bbox o)) = true) markup ->
  exists resized_image resized_markup,
    SegmapManager._rescale_image_and_markup im markup nc max_side
    = Return (resized_image, resized_markup) /\
    fst (size resized_image) mod get_side_multiple nc = 0 /\
    snd (size resized_image) mod get_side_multiple nc = 0 /\
    Z.max (fst (size resized_image)) (snd (size resized_image))
    <= cap_in_force nc max_side /\
    get_side_multiple nc <= fst (size resized_image) /\
    get_side_multiple nc <= snd (size resized_image).
Proof.
  intros Hw Hh Hm HM [k Hk] Hpairs.
  unfold SegmapManager._rescale_image_and_markup.
  destruct (size im) as [w h] eqn:Hsize. cbn [fst snd] in Hw, Hh.
  fold (cap_in_force nc max_side). rewrite Hk in HM |- *.
  set (m := get_side_multiple nc) in *.
  destruct (new_size_bounds w h m k Hw Hh Hm ltac:(nia))
    as (W & Ht & Edims & HW & HH & Hmax & HmW & HmH).
  rewrite Edims. cbn [bind]. unfold Image_resize. cbn [fst snd].
  replace ((W <=? 0) || (Ht <=? 0)) with false
    by (symmetry; apply orb_false_iff; split; apply Z.leb_gt; lia).
  destruct markup as [| o rest].
  - eexists _, _. split; [reflexivity |]. cbn [size fst snd]. auto.
  - rewrite !truediv_inject_Z by lia. cbn [bind].
    match goal with
    | |- context [map_result ?f ?l] =>
      destruct (map_result_returns f l) as [r Er]
    end.
    { eapply Forall_impl; [| exact Hpairs]. cbn beta. intros a Ha.
      unfold SegmapManager.scale_bbox.
      destruct (proj1 (reshape_pairs_even_length (bbox a)) Ha) as [ps Eps].
      rewrite Eps. cbn [bind]. eexists. reflexivity. }
    rewrite Er. cbn [bind].
    eexists _, _. split; [reflexivity |]. cbn [size fst snd]. auto.
Qed.

Lemma rescale_dimensions_witness :
  exists resized_image resized_markup,
    @SegmapManager._rescale_image_and_markup sample_pillow (blank_image 200 100)
      [ClassifiedObjectMarkup [10; 10; 50; 10; 50; 50; 10; 50]%Q 2]
      {| get_scale := 4; get_side_multiple := 32; get_max_side := 64;
         is_classification_supported := true;
         get_class_name := fun _ => EmptyString |} None
    = Return (resized_image, resized_markup) /\
    fst (size resized_image) mod 32 = 0 /\
    snd (size resized_image) mod 32 = 0 /\
    Z.max (fst (size resized_image)) (snd (size resized_image)) <= 64 /\
    32 <= fst (size resized_image) /\
    32 <= snd (size resized_image).
Proof.
  apply (@rescale_dimensions sample_pillow (blank_image 200 100)
           [ClassifiedObjectMarkup [10; 10; 50; 10; 50; 50; 10; 50]%Q 2]
           {| get_scale := 4; get_side_multiple := 32; get_max_side := 64;
              is_classification_supported := true;
              get_class_name := fun _ => EmptyString |} None);
    cbn; try lia.
  - exists 2. reflexivity.
  - repeat constructor.
Defined.

(** C2, as stated, fails: a 20x10 image with side multiple 3 and cap 10
    gets the width 10, which is not a multiple of 3; and a 7x7 image with
    side multiple 4 and cap 7 gets the sides 8, above the cap. *)
Lemma new_size_breaks_divisibility :
  SegmapManager.new_size 20 10 3 10 = Return (10, 6) /\
  SegmapManager.new_size 7 7 4 7 = Return (8, 8) /\
  (exists resized_image,
     @SegmapManager._rescale_image_and_markup sample_pillow (blank_image 20 10) []
       coarse_config None = Return (resized_image, []) /\
     size resized_image = (10, 6)) /\
  ~ (forall w h m M : Z, 0 < w -> 0 < h -> 0 < m -> 0 < M ->
       exists W H, SegmapManager.new_size w h m M = Return (W, H) /\
         W mod m = 0 /\ H mod m = 0 /\ Z.max W H <= M /\ m <= W /\ m <= H).
Proof.
  split; [reflexivity | split; [reflexivity | split]].
  { eexists. split; reflexivity. }
  intros Hclaim.
  destruct (Hclaim 20 10 3 10) as (W & Ht & E & HW & _); try lia.
  vm_compute in E. injection E as <- <-. vm_compute in HW. discriminate.
Qed.

(** ** The segmentation map *)

Lemma length_8_inv {A : Type} (l : list A) :
  length l = 8%nat -> exists a b c d e f g h, l = [a; b; c; d; e; f; g; h].
Proof.
  intros Hlen.
  do 8 (destruct l as [| ? l]; [discriminate Hlen |]).
  destruct l; [| discriminate Hlen].
  repeat eexists.
Qed.

Lemma proper_round_quad_values (x0 y0 x1 y1 x2 y2 x3 y3 : Q) :
  SegmapManager._proper_round [x0; y0; x1; y1; x2; y2; x3; y3]
  = astype_int32
      [SegmapManager.round_vertex x0 (count_greater [x0; x1; x2; x3] x0);
       SegmapManager.round_vertex y0 (count_greater [y0; y1; y2; y3] y0);
       SegmapManager.round_vertex x1 (count_greater [x0; x1; x2; x3] x1);
       SegmapManager.round_vertex y1 (count_greater [y0; y1; y2; y3] y1);
       SegmapManager.round_vertex x2 (count_greater [x0; x1; x2; x3] x2);
       SegmapManager.round_vertex y2 (count_greater [y0; y1; y2; y3] y2);
       SegmapManager.round_vertex x3 (count_greater [x0; x1; x2; x3] x3);
       SegmapManager.round_vertex y3 (count_greater [y0; y1; y2; y3] y3)].
Proof. reflexivity. Qed.

(** The assertion inside [_proper_round] never fails: the call returns or
    raises [OverflowError]. *)
Lemma proper_round_cases (markup_bbox : list Q) :
  (exists r, SegmapManager._proper_round markup_bbox = Return r) \/
  SegmapManager._proper_round markup_bbox = Raise OverflowError.
Proof.
  destruct (Nat.eq_dec (length markup_bbox) 8) as [Hlen | Hlen].
  - destruct (length_8_inv _ Hlen) as (a & b & c & d & e & f & g & h & ->).
    rewrite proper_round_quad_values. unfold astype_int32.
    destruct (forallb held_in_64_bits _);
      [left; eexists; reflexivity | right; reflexivity].
  - left. unfold SegmapManager._proper_round.
    apply Nat.eqb_neq in Hlen. rewrite Hlen. eexists. reflexivity.
Qed.

(** It returns on coordinates that fit in 32 bits. *)
Lemma proper_round_returns (markup_bbox : list Q) :
  Forall fits_int32 markup_bbox ->
  exists r, SegmapManager._proper_round markup_bbox = Return r.
Proof.
  intros Hfit.
  destruct (Nat.eq_dec (length markup_bbox) 8) as [Hlen | Hlen].
  - destruct (length_8_inv _ Hlen) as (a & b & c & d & e & f & g & h & ->).
    rewrite proper_round_quad_values.
    repeat match goal with
           | H : Forall _ (_ :: _) |- _ => inversion H; subst; clear H
           end.
    rewrite astype_int32_in_range by rounded_in_range.
    eexists. reflexivity.
  - unfold SegmapManager._proper_round.
    apply Nat.eqb_neq in Hlen. rewrite Hlen. eexists. reflexivity.
Qed.

Lemma drawn_bbox_returns (scale : Z) (o : Markup) :
  Forall (fun c => fits_int32 (c / inject_Z scale)) (bbox o) ->
  exists xy, SegmapManager.drawn_bbox scale o = Return xy.
Proof.
  intros Hfit. apply proper_round_returns. apply Forall_map. exact Hfit.
Qed.

Lemma drawn_bbox_cases (scale : Z) (o : Markup) :
  (exists xy, SegmapManager.drawn_bbox scale o = Return xy) \/
  SegmapManager.drawn_bbox scale o = Raise OverflowError.
Proof. apply proper_round_cases. Qed.

Lemma fill_color_returns (for_drawing : bool) (o : Markup) :
  for_drawing = true \/ spec_fill false o <= 255 ->
  SegmapManager.fill_color for_drawing o = Return (spec_fill for_drawing o).
Proof.
  unfold SegmapManager.fill_color, spec_fill.
  destruct for_drawing; [reflexivity |].
  intros [Hd | Hle]; [discriminate |].
  destruct o as [b | b t]; cbn [object_type] in *.
  - reflexivity.
  - unfold py_assert. rewrite (proj2 (Z.leb_le _ _) Hle). reflexivity.
Qed.

Lemma fill_color_raises (o : Markup) :
  255 < spec_fill false o ->
  SegmapManager.fill_color false o = Raise too_many_classes.
Proof.
  unfold SegmapManager.fill_color, spec_fill.
  destruct o as [b | b t]; cbn [object_type]; intros Hgt; [lia |].
  unfold py_assert. rewrite (proj2 (Z.leb_gt _ _) Hgt). reflexivity.
Qed.

Lemma fill_color_cases (for_drawing : bool) (o : Markup) :
  SegmapManager.fill_color for_drawing o = Return (spec_fill for_drawing o) \/
  SegmapManager.fill_color for_drawing o = Raise too_many_classes.
Proof.
  destruct for_drawing; [left; reflexivity |].
  destruct (Z_le_gt_dec (spec_fill false o) 255) as [Hle | Hgt].
  - left. apply fill_color_returns. right. exact Hle.
  - right. apply fill_color_raises. lia.
Qed.

Lemma find_snoc {A : Type} (p : A -> bool) (l : list A) (a : A) :
  find p (l ++ [a])
  = match find p l with
    | Some b => Some b
    | None => if p a then Some a else None
    end.
Proof.
  induction l as [| b t IH]; cbn [app find]; [reflexivity |].
  destruct (p b); [reflexivity | exact IH].
Qed.

(** The loop returns an image of the same size, or raises the assertion
    on the fill value, or raises [OverflowError] while rounding. *)
Lemma draw_markup_cases `{Pillow} (scale : Z) (for_drawing : bool)
    (markup : list Markup) (image_segmap : image) :
  (exists seg, SegmapManager.draw_markup scale for_drawing image_segmap markup
               = Return seg /\ size seg = size image_segmap) \/
  SegmapManager.draw_markup scale for_drawing image_segmap markup
  = Raise too_many_classes \/
  SegmapManager.draw_markup scale for_drawing image_segmap markup
  = Raise OverflowError.
Proof.
  revert image_segmap.
  induction markup as [| o rest IH]; intros image_segmap; cbn [SegmapManager.draw_markup].
  - left. eexists. split; reflexivity.
  - unfold SegmapManager.draw_object.
    destruct (drawn_bbox_cases scale o) as [[xy Exy] | Exy]; rewrite Exy;
      cbn [bind]; [| right; right; reflexivity].
    destruct (fill_color_cases for_drawing o) as [E | E]; rewrite E; cbn [bind].
    + destruct (IH (draw_polygon image_segmap xy (spec_fill for_drawing o)))
        as [(seg & Eseg & Hsize) | Eraise].
      * left. exists seg. split; [exact Eseg | exact Hsize].
      * right. exact Eraise.
    + right. left. reflexivity.
Qed.

(** With fill values in range the loop returns, and every pixel holds the
    fill value of the last object that paints it, or what it held before
    when no object paints it. *)
Lemma draw_markup_last_wins `{Pillow} (scale : Z) (for_drawing : bool)
    (markup : list Markup) (image_segmap : image) :
  for_drawing = true \/ Forall (fun o => spec_fill false o <= 255) markup ->
  markup_in_range scale markup ->
  exists seg,
    SegmapManager.draw_markup scale for_drawing image_segmap markup = Return seg /\
    size seg = size image_segmap /\
    forall x y,
      getpixel seg x y
      = match find (fun o => paints scale (size image_segmap) o x y) (rev markup) with
        | Some o => spec_fill for_drawing o
        | None => getpixel image_segmap x y
        end.
Proof.
  revert image_segmap.
  induction markup as [| o rest IH]; intros image_segmap Hfill Hrange;
    cbn [SegmapManager.draw_markup].
  - eexists. repeat split.
  - unfold SegmapManager.draw_object.
    inversion Hrange as [| ? ? Ho Hrest]; subst.
    destruct (drawn_bbox_returns scale o Ho) as [xy Exy]. rewrite Exy. cbn [bind].
    rewrite fill_color_returns
      by (destruct Hfill as [Hd | Hall]; [left; exact Hd | right; inversion Hall; assumption]).
    cbn [bind].
    destruct (IH (draw_polygon image_segmap xy (spec_fill for_drawing o)))
      as (seg & Eseg & Hsize & Hpix).
    { destruct Hfill as [Hd | Hall]; [left; exact Hd | right; inversion Hall; assumption]. }
    { exact Hrest. }
    exists seg. split; [exact Eseg |]. split; [exact Hsize |].
    intros x y. rewrite Hpix. cbn [rev]. rewrite find_snoc.
    cbn [draw_polygon size getpixel].
    destruct (find _ (rev rest)); [reflexivity |].
    unfold paints. rewrite Exy.
    destruct (in_image _ x y && polygon_pixels _ x y); reflexivity.
Qed.

(** An object whose fill value is out of range stops the loop. *)
Lemma draw_markup_raises `{Pillow} (scale : Z) (markup : list Markup)
    (image_segmap : image) :
  markup_in_range scale markup ->
  Exists (fun o => 255 < spec_fill false o) markup ->
  SegmapManager.draw_markup scale false image_segmap markup = Raise too_many_classes.
Proof.
  intros Hrange Hex. revert image_segmap.
  induction markup as [| o rest IH]; intros image_segmap; [inversion Hex |].
  cbn [SegmapManager.draw_markup]. unfold SegmapManager.draw_object.
  inversion Hrange as [| ? ? Ho Hrest]; subst.
  destruct (drawn_bbox_returns scale o Ho) as [xy Exy]. rewrite Exy. cbn [bind].
  destruct (Z_le_gt_dec (spec_fill false o) 255) as [Hle | Hgt].
  - rewrite fill_color_returns by (right; exact Hle). cbn [bind].
    apply IH; [exact Hrest |]. inversion Hex; subst; [lia | assumption].
  - rewrite fill_color_raises by lia. reflexivity.
Qed.

(** Past the assertion on the dimensions the map is allocated and the loop
    runs on it. *)
Lemma build_segmentation_map_divisible `{Pillow} (im : image)
    (markup : list Markup) (scale : Z) (for_drawing : bool) :
  0 < scale -> 0 <= fst (size im) -> 0 <= snd (size im) ->
  (scale | fst (size im)) -> (scale | snd (size im)) ->
  SegmapManager.build_segmentation_map im markup scale for_drawing
  = SegmapManager.draw_markup scale for_drawing
      (blank_image (fst (size im) / scale) (snd (size im) / scale)) markup.
Proof.
  intros Hs Hw Hh Hdw Hdh. unfold SegmapManager.build_segmentation_map.
  destruct (size im) as [w h]. cbn [fst snd] in *.
  unfold py_mod, py_floordiv.
  rewrite (proj2 (Z.eqb_neq scale 0)) by lia. cbn [bind].
  apply Z.mod_divide in Hdw; [| lia]. apply Z.mod_divide in Hdh; [| lia].
  rewrite Hdw, Hdh. cbn [Z.eqb bind py_assert].
  unfold Image_new. cbn [fst snd].
  replace ((w / scale <? 0) || (h / scale <? 0)) with false; [reflexivity |].
  symmetry. apply orb_false_iff.
  split; apply Z.ltb_ge; apply Z.div_pos; lia.
Qed.

Lemma build_segmentation_map_indivisible `{Pillow} (im : image)
    (markup : list Markup) (scale : Z) (for_drawing : bool) :
  0 < scale ->
  ~ ((scale | fst (size im)) /\ (scale | snd (size im))) ->
  SegmapManager.build_segmentation_map im markup scale for_drawing
  = Raise (AssertionError None).
Proof.
  intros Hs Hnot. unfold SegmapManager.build_segmentation_map.
  destruct (size im) as [w h]. cbn [fst snd] in *.
  unfold py_mod. rewrite (proj2 (Z.eqb_neq scale 0)) by lia. cbn [bind].
  destruct (w mod scale =? 0) eqn:Ew; cbn [bind]; [| reflexivity].
  destruct (h mod scale =? 0) eqn:Eh; cbn [bind py_assert]; [| reflexivity].
  exfalso. apply Hnot.
  apply Z.eqb_eq in Ew, Eh. split; apply Z.mod_divide; lia.
Qed.

Lemma find_skip_unpainted {A : Type} (p : A -> bool) (l l' : list A) :
  Forall (fun a => p a = false) l -> find p (l ++ l') = find p l'.
Proof.
  induction 1 as [| a t Ha _ IH]; cbn [app find]; [reflexivity |].
  rewrite Ha. exact IH.
Qed.

Lemma find_last_painter {A : Type} (p : A -> bool) (before after : list A) (o : A) :
  p o = true -> Forall (fun a => p a = false) after ->
  find p (rev (before ++ o :: after)) = Some o.
Proof.
  intros Ho Hafter. rewrite rev_app_distr. cbn [rev]. rewrite <- app_assoc.
  rewrite find_skip_unpainted by (apply Forall_rev; exact Hafter).
  cbn [app find]. rewrite Ho. reflexivity.
Qed.

Lemma find_nobody {A : Type} (p : A -> bool) (l : list A) :
  Forall (fun a => p a = false) l -> find p (rev l) = None.
Proof.
  intros Hall. rewrite <- (app_nil_r (rev l)).
  rewrite find_skip_unpainted by (apply Forall_rev; exact Hall). reflexivity.
Qed.

(** C4, as amended.  For a positive scale, [build_segmentation_map] stops
    at the assertion on the dimensions exactly when the scale does not
    divide both the width and the height.  When it divides both, the map is
    allocated with the size (w / scale, h / scale) and filled with 0 before
    the objects are drawn, and with class ids in range and scaled
    coordinates that fit in 32 bits the call returns a map of that size. *)
Theorem build_segmentation_map_precondition `{Pillow} (im : image)
    (markup : list Markup) (scale : Z) (for_drawing : bool) :
  0 < scale -> 0 <= fst (size im) -> 0 <= snd (size im) ->
  (SegmapManager.build_segmentation_map im markup scale for_drawing
   = Raise (AssertionError None)
   <-> ~ ((scale | fst (size im)) /\ (scale | snd (size im)))) /\
  ((scale | fst (size im)) /\ (scale | snd (size im)) ->
   SegmapManager.build_segmentation_map im markup scale for_drawing
   = SegmapManager.draw_markup scale for_drawing
       (blank_image (fst (size im) / scale) (snd (size im) / scale)) markup) /\
  ((scale | fst (size im)) /\ (scale | snd (size im)) ->
   for_drawing = true \/ Forall (fun o => spec_fill false o <= 255) markup ->
   markup_in_range scale markup ->
   exists seg,
     SegmapManager.build_segmentation_map im markup scale for_drawing = Return seg /\
     size seg = (fst (size im) / scale, snd (size im) / scale)).
Proof.
  intros Hs Hw Hh. split; [split | split].
  - intros Hraise [Hdw Hdh].
    rewrite build_segmentation_map_divisible in Hraise by assumption.
    destruct (draw_markup_cases scale for_drawing markup
                (blank_image (fst (size im) / scale) (snd (size im) / scale)))
      as [(seg & Eseg & _) | [Eraise | Eraise]];
      rewrite Hraise in *; discriminate.
  - apply build_segmentation_map_indivisible. exact Hs.
  - intros [Hdw Hdh]. apply build_segmentation_map_divisible; assumption.
  - intros [Hdw Hdh] Hfill Hrange.
    rewrite build_segmentation_map_divisible by assumption.
    destruct (draw_markup_last_wins scale for_drawing markup
                (blank_image (fst (size im) / scale) (snd (size im) / scale))
                Hfill Hrange)
      as (seg & Eseg & Hsize & _).
    exists seg. split; [exact Eseg | exact Hsize].
Qed.

(** The scenario of the specification: a 201x200 image with scale 4. *)
Lemma build_segmentation_map_precondition_witness :
  @SegmapManager.build_segmentation_map sample_pillow (blank_image 201 200)
    [ClassifiedObjectMarkup [10; 10; 50; 10; 50; 50; 10; 50]%Q 2] 4 false
  = Raise (AssertionError None).
Proof.
  apply (@build_segmentation_map_precondition sample_pillow (blank_image 201 200)
           [ClassifiedObjectMarkup [10; 10; 50; 10; 50; 50; 10; 50]%Q 2] 4 false);
    cbn [blank_image size fst snd]; try lia.
  intros [[k Hk] _]. lia.
Defined.

(** C4, as stated, fails for a scale that is not positive.  Scale 0 does
    not divide 200, yet the call on a 200x200 image raises
    [ZeroDivisionError], not an assertion; scale -4 divides 200, yet no
    map is allocated: the call raises [ValueError]. *)
Lemma build_segmentation_map_needs_positive_scale :
  ~ (0 | 200) /\
  @SegmapManager.build_segmentation_map sample_pillow (blank_image 200 200) [] 0 false
  = Raise ZeroDivisionError /\
  (-4 | 200) /\
  @SegmapManager.build_segmentation_map sample_pillow (blank_image 200 200) []
    (-4) false
  = Raise (ValueError "Width and height must be >= 0").
Proof.
  split; [intros [k Hk]; lia |]. split; [reflexivity |].
  split; [exists (-50); reflexivity | reflexivity].
Qed.

(** C5. When the scale divides the dimensions, each object is drawn with
    the value 255 in drawing mode, 1 when it has no class and its class id
    plus one otherwise, the objects being drawn in input order: with class
    ids between 0 and 254 (or in drawing mode) the call returns a map in
    which a pixel painted by an object and by none of the objects after it
    holds the value of that object, and a pixel painted by no object holds
    0.  Outside drawing mode an object whose class id plus one exceeds 255
    fails the assertion on the fill value.  The coordinates divided by the
    scale are taken to fit in 32 bits, so that rounding them does not
    overflow. *)
Theorem build_segmentation_map_fill `{Pillow} (im : image)
    (markup : list Markup) (scale : Z) (for_drawing : bool) :
  0 < scale -> 0 <= fst (size im) -> 0 <= snd (size im) ->
  (scale | fst (size im)) -> (scale | snd (size im)) ->
  markup_in_range scale markup ->
  (for_drawing = true \/ Forall (fun o => 1 <= spec_fill false o <= 255) markup ->
   exists seg,
     SegmapManager.build_segmentation_map im markup scale for_drawing = Return seg /\
     size seg = (fst (size im) / scale, snd (size im) / scale) /\
     forall x y,
       (forall before o after,
          markup = before ++ o :: after ->
          paints scale (size seg) o x y = true ->
          Forall (fun o' => paints scale (size seg) o' x y = false) after ->
          getpixel seg x y = spec_fill for_drawing o) /\
       (Forall (fun o => paints scale (size seg) o x y = false) markup ->
        getpixel seg x y = 0)) /\
  (for_drawing = false ->
   Exists (fun o => 255 < spec_fill false o) markup ->
   SegmapManager.build_segmentation_map im markup scale for_drawing
   = Raise too_many_classes).
Proof.
  intros Hs Hw Hh Hdw Hdh Hrange.
  rewrite build_segmentation_map_divisible by assumption.
  split.
  - intros Hfill.
    destruct (draw_markup_last_wins scale for_drawing markup
                (blank_image (fst (size im) / scale) (snd (size im) / scale)))
      as (seg & Eseg & Hsize & Hpix).
    { destruct Hfill as [Hd | Hall]; [left; exact Hd | right].
      eapply Forall_impl; [| exact Hall]. cbn beta. intros; lia. }
    { exact Hrange. }
    exists seg. split; [exact Eseg |]. split; [exact Hsize |].
    intros x y. rewrite Hsize. split.
    + intros before o after -> Ho Hafter.
      rewrite Hpix. rewrite (find_last_painter _ before after o Ho Hafter).
      reflexivity.
    + intros Hnone. rewrite Hpix. rewrite (find_nobody _ markup Hnone).
      reflexivity.
  - intros -> Hex. apply draw_markup_raises; assumption.
Qed.

Lemma build_segmentation_map_fill_witness :
  exists seg,
    @SegmapManager.build_segmentation_map sample_pillow (blank_image 200 200)
      scenario_markup 4 false = Return seg /\
    size seg = (50, 50) /\
    getpixel seg 3 3 = 3 /\ getpixel seg 11 11 = 5 /\ getpixel seg 30 30 = 0.
Proof.
  destruct (@build_segmentation_map_fill sample_pillow (blank_image 200 200)
              scenario_markup 4 false) as [Hret _];
    cbn [blank_image size fst snd]; try lia;
    [exists 50; reflexivity | exists 50; reflexivity
     | unfold markup_in_range, scenario_markup;
       repeat constructor; vm_compute; discriminate |].
  destruct Hret as (seg & Eseg & Hsize & Hpix).
  { right. unfold scenario_markup. repeat constructor; cbn; lia. }
  cbn [blank_image size fst snd] in Hsize.
  change (200 / 4) with 50 in Hsize. rewrite Hsize in Hpix.
  exists seg. split; [exact Eseg |]. split; [exact Hsize |].
  split; [| split].
  - apply (proj1 (Hpix 3 3) []
             (ClassifiedObjectMarkup [10; 10; 50; 10; 50; 50; 10; 50]%Q 2)
             [ClassifiedObjectMarkup [40; 40; 90; 40; 90; 90; 40; 90]%Q 4]).
    + reflexivity.
    + vm_compute. reflexivity.
    + repeat constructor.
  - apply (proj1 (Hpix 11 11)
             [ClassifiedObjectMarkup [10; 10; 50; 10; 50; 50; 10; 50]%Q 2]
             (ClassifiedObjectMarkup [40; 40; 90; 40; 90; 90; 40; 90]%Q 4) []).
    + reflexivity.
    + vm_compute. reflexivity.
    + constructor.
  - apply (proj2 (Hpix 30 30)). unfold scenario_markup. repeat constructor.
Defined.

(** ** Contours and boxes *)

(** C6. [get_contours_and_boxes] returns, in the order of
    [cv2.findContours], exactly the contours whose area is strictly greater
    than the threshold, together with a list of boxes of the same length
    whose i-th element is the flat list of the 8 coordinates of the four
    corners [cv2.boxPoints] gives for the [cv2.minAreaRect] of the i-th
    contour. *)
Theorem get_contours_and_boxes_aligned `{OpenCV} (seg_map : image) (min_area : Q) :
  exists cnts boxes,
    Utils.get_contours_and_boxes seg_map min_area = Return (cnts, boxes) /\
    (forall cnt, In cnt cnts <->
                 In cnt (findContours seg_map) /\ (min_area < contourArea cnt)%Q) /\
    (forall cnt, In cnt (findContours seg_map) ->
                 (contourArea cnt <= min_area)%Q -> ~ In cnt cnts) /\
    length boxes = length cnts /\
    (forall i cnt, nth_error cnts i = Some cnt ->
       exists p1 p2 p3 p4,
         boxPoints (minAreaRect cnt) = (p1, p2, p3, p4) /\
         nth_error boxes i
         = Some [fst p1; snd p1; fst p2; snd p2; fst p3; snd p3; fst p4; snd p4]).
Proof.
  unfold Utils.get_contours_and_boxes.
  set (cnts := filter (fun cnt => Qgtb (contourArea cnt) min_area)
                      (findContours seg_map)).
  exists cnts, (map (fun rect => reshape8 (boxPoints rect)) (map minAreaRect cnts)).
  split; [| split; [| split; [| split]]].
  - rewrite !length_map, Nat.eqb_refl. reflexivity.
  - intros cnt. unfold cnts. rewrite filter_In, Qgtb_lt. reflexivity.
  - intros cnt _ Hle Hin. unfold cnts in Hin.
    apply filter_In in Hin. destruct Hin as [_ Hgt].
    apply Qgtb_lt in Hgt. exact (Qlt_not_le _ _ Hgt Hle).
  - rewrite !length_map. reflexivity.
  - intros i cnt Hi.
    destruct (boxPoints (minAreaRect cnt)) as [[[p1 p2] p3] p4] eqn:Ebox.
    exists p1, p2, p3, p4. split; [reflexivity |].
    rewrite !nth_error_map, Hi. cbn [option_map]. rewrite Ebox. reflexivity.
Qed.

(** ** Object types *)

(** C9, as amended.  With a format other than "name" and "id",
    [extract_bboxes_and_object_types] raises [ValueError] for every markup
    when the configuration supports classification; when it does not, the
    format is not looked at and the call returns the boxes and [None]. *)
Theorem extract_rejects_format_when_classifying (image_markup : list Markup)
    (nc : net_config) (object_types_format : string) :
  object_types_format <> "name"%string ->
  object_types_format <> "id"%string ->
  (is_classification_supported nc = true ->
   Utils.extract_bboxes_and_object_types image_markup nc object_types_format
   = Raise (ValueError "Unsupported object type format")) /\
  (is_classification_supported nc = false ->
   Utils.extract_bboxes_and_object_types image_markup nc object_types_format
   = Return (map bbox image_markup, None)).
Proof.
  intros Hname Hid. unfold Utils.extract_bboxes_and_object_types.
  split; intros ->; [| reflexivity].
  apply String.eqb_neq in Hname, Hid. rewrite Hname, Hid. reflexivity.
Qed.

Lemma extract_rejects_format_when_classifying_witness :
  Utils.extract_bboxes_and_object_types scenario_markup
    {| get_scale := 4; get_side_multiple := 32; get_max_side := 512;
       is_classification_supported := true;
       get_class_name := fun _ => EmptyString |} "index"
  = Raise (ValueError "Unsupported object type format").
Proof.
  apply (extract_rejects_format_when_classifying scenario_markup
           {| get_scale := 4; get_side_multiple := 32; get_max_side := 512;
              is_classification_supported := true;
              get_class_name := fun _ => EmptyString |} "index");
    [discriminate | discriminate | reflexivity].
Defined.

(** C9, as stated, fails: without classification support a call with the
    format "index" returns normally. *)
Lemma extract_accepts_any_format_without_classes :
  Utils.extract_bboxes_and_object_types scenario_markup detection_only_config "index"
  = Return (map bbox scenario_markup, None) /\
  ~ (forall image_markup nc object_types_format,
       object_types_format <> "name"%string ->
       object_types_format <> "id"%string ->
       exists e,
         Utils.extract_bboxes_and_object_types image_markup nc object_types_format
         = Raise e).
Proof.
  split; [reflexivity |].
  intros Hclaim.
  destruct (Hclaim scenario_markup detection_only_config "index"%string)
    as [e He]; [discriminate | discriminate |].
  discriminate He.
Qed.

(** ** Quadrangles *)

(** C10. On points that Shapely accepts as a valid polygon,
    [fix_quadrangle] returns the points as given, in the same order, and
    logs nothing. *)
Theorem fix_quadrangle_valid_identity `{Shapely} (quad : list point) :
  polygon_is_valid quad = true ->
  Utils.fix_quadrangle quad = ([], Return quad).
Proof.
  intros Hvalid. unfold Utils.fix_quadrangle. rewrite Hvalid. reflexivity.
Qed.

Lemma fix_quadrangle_valid_identity_witness :
  @Utils.fix_quadrangle sample_shapely [(0, 0); (4, 0); (4, 3); (0, 3)]%Q
  = ([], Return [(0, 0); (4, 0); (4, 3); (0, 3)]%Q).
Proof.
  apply (@fix_quadrangle_valid_identity sample_shapely). reflexivity.
Defined.

(** A self-crossing quadrangle, by contrast, is replaced and reported. *)
Example fix_quadrangle_bow_tie :
  @Utils.fix_quadrangle sample_shapely [(0, 0); (4, 3); (4, 0); (0, 3)]%Q
  = (["polygon invalid"%string],
     Return [(0, 0); (4, 0); (4, 3); (0, 3)]%Q).
Proof. reflexivity. Qed.

(** * Further properties *)

(** ** Vertex rounding *)

Ltac split_fits :=
  repeat match goal with
         | H : Forall _ (_ :: _) |- _ => inversion H; subst; clear H
         end.




Lemma round_vertex_floor_or_ceiling (q : Q) (n : nat) :
  SegmapManager.round_vertex q n = Qfloor q \/
  SegmapManager.round_vertex q n = Qceiling q.
Proof. unfold SegmapManager.round_vertex. destruct (1 <? n)%nat; auto. Qed.

Lemma toward_zero_floor_or_ceiling (q : Q) :
  toward_zero q = Qfloor q \/ toward_zero q = Qceiling q.
Proof. unfold toward_zero. destruct (Qle_bool 0 q); auto. Qed.

(** Whatever the length, each coordinate goes to its floor or to its
    ceiling. *)
Lemma proper_round_floor_or_ceiling (markup_bbox : list Q) :
  Forall fits_int32 markup_bbox ->
  exists r, SegmapManager._proper_round markup_bbox = Return r /\
            Forall2 (fun q z => z = Qfloor q \/ z = Qceiling q) markup_bbox r.
Proof.
  intros Hfit.
  destruct (Nat.eq_dec (length markup_bbox) 8) as [Hlen | Hlen].
  - destruct (length_8_inv _ Hlen) as (a & b & c & d & e & f & g & h & ->).
    rewrite proper_round_quad_values. split_fits.
    rewrite astype_int32_in_range by rounded_in_range.
    eexists. split; [reflexivity |].
    repeat (constructor; [apply round_vertex_floor_or_ceiling |]). constructor.
  - unfold SegmapManager._proper_round.
    apply Nat.eqb_neq in Hlen. rewrite Hlen. cbn [negb].
    eexists. split; [reflexivity |]. clear Hlen.
    induction Hfit as [| q t Hq _ IH]; cbn [map]; constructor; [| exact IH].
    unfold float_astype_int32. rewrite Qtrunc_toward_zero.
    rewrite toward_zero_fits by exact Hq. apply toward_zero_floor_or_ceiling.
Qed.

Lemma floor_or_ceiling_close (q : Q) (z : Z) :
  z = Qfloor q \/ z = Qceiling q -> (Qabs (q - inject_Z z) < 1)%Q.
Proof.
  intros Hz. apply Qabs_Qlt_condition.
  pose proof (Qfloor_le q) as Hfl. pose proof (Qlt_floor q) as Hfu.
  pose proof (Qle_ceiling q) as Hcu. pose proof (Qceiling_lt q) as Hcl.
  rewrite inject_Z_plus in Hfu. unfold Z.sub in Hcl. rewrite inject_Z_plus in Hcl.
  change (inject_Z 1) with 1%Q in Hfu.
  assert (E : (inject_Z (-1) == -1)%Q) by reflexivity. rewrite E in Hcl.
  destruct Hz as [-> | ->]; split; lra.
Qed.

(** No coordinate is moved by a whole pixel: each output differs from its
    input by less than 1, for quadrilaterals and for other polygons. *)
Theorem proper_round_moves_less_than_one (markup_bbox : list Q) :
  Forall fits_int32 markup_bbox ->
  exists r, SegmapManager._proper_round markup_bbox = Return r /\
            Forall2 (fun q z => (Qabs (q - inject_Z z) < 1)%Q) markup_bbox r.
Proof.
  intros Hfit.
  destruct (proper_round_floor_or_ceiling markup_bbox Hfit) as (r & Er & Hr).
  exists r. split; [exact Er |].
  eapply Forall2_impl; [| exact Hr]. apply floor_or_ceiling_close.
Qed.

Lemma proper_round_moves_less_than_one_witness :
  exists r,
    SegmapManager._proper_round [3 # 4; 3 # 4; 11 # 4; 3 # 4; 11 # 4; 11 # 4]
    = Return r /\
    Forall2 (fun q z => (Qabs (q - inject_Z z) < 1)%Q)
            [3 # 4; 3 # 4; 11 # 4; 3 # 4; 11 # 4; 11 # 4] r.
Proof.
  apply proper_round_moves_less_than_one.
  repeat constructor; vm_compute; discriminate.
Defined.

(** Coordinates that are already integers come out unchanged. *)
Theorem proper_round_fixes_integers (coords : list Z) :
  Forall (fun z => int32_min <= z <= int32_max) coords ->
  SegmapManager._proper_round (map inject_Z coords) = Return coords.
Proof.
  intros Hrange.
  destruct (proper_round_floor_or_ceiling (map inject_Z coords)) as (r & Er & Hr).
  { apply Forall_map. eapply Forall_impl; [| exact Hrange]. cbn beta.
    intros z Hz. unfold fits_int32. rewrite Qfloor_Z, Qceiling_Z. lia. }
  rewrite Er. f_equal. clear Er Hrange. revert r Hr.
  induction coords as [| z t IH]; cbn [map]; intros r Hr;
    inversion Hr as [| q z' l l' Hz Ht]; subst; [reflexivity |].
  rewrite Qfloor_Z, Qceiling_Z in Hz.
  f_equal; [destruct Hz; assumption | apply IH; exact Ht].
Qed.

Lemma proper_round_fixes_integers_witness :
  SegmapManager._proper_round (map inject_Z [2; 2; 12; 2; 12; 12; 2; 12])
  = Return [2; 2; 12; 2; 12; 12; 2; 12].
Proof.
  apply proper_round_fixes_integers.
  repeat constructor; vm_compute; discriminate.
Defined.

Lemma Qgtb_false (a b : Q) : (a <= b)%Q -> Qgtb a b = false.
Proof. intros H. unfold Qgtb. apply negb_false_iff, Qle_bool_iff, H. Qed.

(** An axis-parallel rectangle with corners (a, c) and (b, d) is rounded
    outward: the smaller coordinates to their floor, the larger to their
    ceiling. *)
Theorem proper_round_rectangle_outward (a b c d : Q) :
  (a < b)%Q -> (c < d)%Q ->
  Forall fits_int32 [a; b; c; d] ->
  SegmapManager._proper_round [a; c; b; c; b; d; a; d]
  = Return [Qfloor a; Qfloor c; Qceiling b; Qfloor c;
            Qceiling b; Qceiling d; Qfloor a; Qceiling d].
Proof.
  intros Hab Hcd Hfit. split_fits.
  rewrite proper_round_quad_values.
  rewrite astype_int32_in_range by rounded_in_range.
  unfold SegmapManager.round_vertex, count_greater. cbn [filter].
  rewrite !Qgtb_irrefl.
  rewrite (proj2 (Qgtb_lt b a) Hab), (proj2 (Qgtb_lt d c) Hcd).
  rewrite (Qgtb_false a b) by (apply Qlt_le_weak; exact Hab).
  rewrite (Qgtb_false c d) by (apply Qlt_le_weak; exact Hcd).
  reflexivity.
Qed.

Lemma proper_round_rectangle_outward_witness :
  SegmapManager._proper_round [5 # 2; 5 # 2; 25 # 2; 5 # 2; 25 # 2; 25 # 2; 5 # 2; 25 # 2]
  = Return [Qfloor (5 # 2); Qfloor (5 # 2); Qceiling (25 # 2); Qfloor (5 # 2);
            Qceiling (25 # 2); Qceiling (25 # 2); Qfloor (5 # 2); Qceiling (25 # 2)].
Proof.
  apply proper_round_rectangle_outward;
    [reflexivity | reflexivity | repeat constructor; vm_compute; discriminate].
Defined.

Lemma count_greater_of_maximum (xs : list Q) (m : Q) :
  Forall (fun x => (x <= m)%Q) xs -> count_greater xs m = 0%nat.
Proof.
  unfold count_greater.
  induction 1 as [| x t Hx _ IH]; cbn [filter]; [reflexivity |].
  rewrite (Qgtb_false x m Hx). exact IH.
Qed.

(** Along one axis: the rounded values lie between the floor of a lower
    bound and the ceiling of the maximum, and the ceiling of the maximum
    is among them. *)
Lemma axis_extent (xs : list Q) (lo hi : Q) :
  Forall (fun x => (lo <= x)%Q) xs ->
  Forall (fun x => (x <= hi)%Q) xs -> In hi xs ->
  let rs := map (fun x => SegmapManager.round_vertex x (count_greater xs x)) xs in
  Forall (fun z => Qfloor lo <= z <= Qceiling hi) rs /\ In (Qceiling hi) rs.
Proof.
  intros Hlo Hhi Hin rs. split.
  - subst rs. apply Forall_map. rewrite Forall_forall in Hlo, Hhi |- *.
    intros x Hx.
    pose proof (Qfloor_resp_le _ _ (Hlo x Hx)).
    pose proof (Qceiling_resp_le _ _ (Hhi x Hx)).
    pose proof (Qfloor_le_Qceiling x).
    destruct (round_vertex_floor_or_ceiling x (count_greater xs x)) as [-> | ->]; lia.
  - subst rs. apply in_map_iff. exists hi. split; [| exact Hin].
    rewrite count_greater_of_maximum by exact Hhi. reflexivity.
Qed.

(** A quadrilateral keeps its upper extent: on each axis the largest
    rounded coordinate is the ceiling of the largest coordinate, and no
    rounded coordinate falls below the floor of the smallest. *)
Theorem proper_round_quadrilateral_extent (x0 y0 x1 y1 x2 y2 x3 y3 : Q)
    (xmin xmax ymin ymax : Q) :
  Forall fits_int32 [x0; y0; x1; y1; x2; y2; x3; y3] ->
  Forall (fun x => (xmin <= x <= xmax)%Q) [x0; x1; x2; x3] -> In xmax [x0; x1; x2; x3] ->
  Forall (fun y => (ymin <= y <= ymax)%Q) [y0; y1; y2; y3] -> In ymax [y0; y1; y2; y3] ->
  exists r,
    SegmapManager._proper_round [x0; y0; x1; y1; x2; y2; x3; y3] = Return r /\
    Forall (fun z => Qfloor xmin <= z <= Qceiling xmax) (slice_even r) /\
    In (Qceiling xmax) (slice_even r) /\
    Forall (fun z => Qfloor ymin <= z <= Qceiling ymax) (slice_odd r) /\
    In (Qceiling ymax) (slice_odd r).
Proof.
  intros Hfit Hx Hxin Hy Hyin.
  rewrite proper_round_quad_values.
  rewrite astype_int32_in_range by (clear Hx Hy; split_fits; rounded_in_range).
  eexists. split; [reflexivity |]. cbn [slice_even slice_odd tl].
  destruct (axis_extent [x0; x1; x2; x3] xmin xmax) as [Hxr Hxm];
    [eapply Forall_impl; [| exact Hx]; cbn beta; tauto
    | eapply Forall_impl; [| exact Hx]; cbn beta; tauto
    | exact Hxin |].
  destruct (axis_extent [y0; y1; y2; y3] ymin ymax) as [Hyr Hym];
    [eapply Forall_impl; [| exact Hy]; cbn beta; tauto
    | eapply Forall_impl; [| exact Hy]; cbn beta; tauto
    | exact Hyin |].
  cbn [map] in Hxr, Hxm, Hyr, Hym. auto.
Qed.

Lemma proper_round_quadrilateral_extent_witness :
  exists r,
    SegmapManager._proper_round
      [3 # 2; 1 # 2; 5 # 2; 3 # 2; 3 # 2; 5 # 2; 1 # 2; 3 # 2] = Return r /\
    Forall (fun z => Qfloor (1 # 2) <= z <= Qceiling (5 # 2)) (slice_even r) /\
    In (Qceiling (5 # 2)) (slice_even r) /\
    Forall (fun z => Qfloor (1 # 2) <= z <= Qceiling (5 # 2)) (slice_odd r) /\
    In (Qceiling (5 # 2)) (slice_odd r).
Proof.
  apply (proper_round_quadrilateral_extent
           (3 # 2) (1 # 2) (5 # 2) (3 # 2) (3 # 2) (5 # 2) (1 # 2) (3 # 2)
           (1 # 2) (5 # 2) (1 # 2) (5 # 2)).
  - repeat constructor; vm_compute; discriminate.
  - repeat constructor; vm_compute; discriminate.
  - right; left; reflexivity.
  - repeat constructor; vm_compute; discriminate.
  - right; right; left; reflexivity.
Defined.

(** ** Rescaling *)

Lemma py_round_comp (q q' : Q) : (q == q')%Q -> py_round q = py_round q'.
Proof.
  intros E. unfold py_round. rewrite (Qfloor_comp _ _ E).
  assert (E' : (q - inject_Z (Qfloor q') == q' - inject_Z (Qfloor q'))%Q)
    by (rewrite E; reflexivity).
  rewrite (Qcompare_comp _ _ E' (1 # 2) (1 # 2) (Qeq_refl _)). reflexivity.
Qed.

(** [round] stays within one half of its argument. *)
Lemma py_round_close (q : Q) :
  (inject_Z (py_round q) - (1 # 2) <= q <= inject_Z (py_round q) + (1 # 2))%Q.
Proof.
  unfold py_round.
  pose proof (Qfloor_le q) as Hfl. pose proof (Qlt_floor q) as Hfu.
  rewrite inject_Z_plus in Hfu. change (inject_Z 1) with 1%Q in Hfu.
  destruct (Qcompare (q - inject_Z (Qfloor q)) (1 # 2)) eqn:E.
  - apply Qeq_alt in E. destruct (Z.even (Qfloor q)).
    + split; lra.
    + rewrite inject_Z_plus. change (inject_Z 1) with 1%Q. split; lra.
  - apply Qlt_alt in E. split; lra.
  - apply Qgt_alt in E. rewrite inject_Z_plus. change (inject_Z 1) with 1%Q.
    split; lra.
Qed.

Lemma py_round_div_bounds (a m : Z) :
  0 < m ->
  2 * py_round (inject_Z a / inject_Z m) * m - m <= 2 * a
  <= 2 * py_round (inject_Z a / inject_Z m) * m + m.
Proof.
  intros Hm.
  set (q := (inject_Z a / inject_Z m)%Q).
  destruct (py_round_close q) as [Hlo Hhi].
  set (r := py_round q) in *.
  assert (Hq : (q * inject_Z m == inject_Z a)%Q).
  { unfold q. field. unfold Qeq; cbn; lia. }
  assert (Hmq : (0 < inject_Z m)%Q)
    by (change 0%Q with (inject_Z 0); rewrite <- Zlt_Qlt; lia).
  assert (H1 : ((inject_Z r - (1 # 2)) * inject_Z m <= inject_Z a)%Q).
  { rewrite <- Hq. apply Qmult_le_compat_r; lra. }
  assert (H2 : (inject_Z a <= (inject_Z r + (1 # 2)) * inject_Z m)%Q).
  { rewrite <- Hq. apply Qmult_le_compat_r; lra. }
  split.
  - rewrite Zle_Qle. unfold Z.sub.
    rewrite inject_Z_plus, inject_Z_opp, !inject_Z_mult.
    change (inject_Z 2) with 2%Q. lra.
  - rewrite Zle_Qle. rewrite inject_Z_plus, !inject_Z_mult.
    change (inject_Z 2) with 2%Q. lra.
Qed.

Lemma py_round_inject_Z (k : Z) : py_round (inject_Z k) = k.
Proof.
  pose proof (py_round_div_bounds k 1 ltac:(lia)) as H.
  rewrite (py_round_comp (inject_Z k / inject_Z 1) (inject_Z k)) in H
    by (field). lia.
Qed.

Lemma to_multiple_of_multiple (j m : Z) :
  0 < m -> 1 <= j ->
  SegmapManager.to_multiple (inject_Z (j * m)) m = Return (j * m).
Proof.
  intros Hm Hj. unfold SegmapManager.to_multiple.
  rewrite truediv_inject_Z by lia. cbn [bind].
  rewrite (py_round_comp _ (inject_Z j)).
  - rewrite py_round_inject_Z. rewrite Z.max_r by lia. reflexivity.
  - rewrite inject_Z_mult. field. unfold Qeq; cbn; lia.
Qed.

(** Dimensions that already are multiples of the side multiple and within
    the cap are kept. *)
Lemma new_size_fixed_point (W H m M : Z) :
  0 < m -> 0 < W -> 0 < H -> (m | W) -> (m | H) -> Z.max W H <= M ->
  SegmapManager.new_size W H m M = Return (W, H).
Proof.
  intros Hm HW HH [jw ->] [jh ->] Hcap. unfold SegmapManager.new_size.
  replace (Z.max (jw * m) (jh * m) >? M) with false
    by (symmetry; rewrite Z.gtb_ltb; apply Z.ltb_ge; exact Hcap).
  rewrite !to_multiple_of_multiple by nia. reflexivity.
Qed.

Lemma reshape_pairs_inv (flat : list Q) :
  (forall ps, reshape_pairs flat = Return ps -> flat = reshape_flat ps) /\
  (forall a ps, reshape_pairs (a :: flat) = Return ps ->
                a :: flat = reshape_flat ps).
Proof.
  induction flat as [| b t [IHeven IHodd]].
  - split; [intros ps E; injection E as <-; reflexivity | intros a ps E; discriminate E].
  - split; [apply IHodd |].
    intros a ps E. cbn [reshape_pairs] in E.
    destruct (reshape_pairs t) as [r |] eqn:Er; [| discriminate E].
    cbn [bind] in E. injection E as <-.
    cbn [reshape_flat flat_map fst snd app]. rewrite (IHeven r eq_refl) at 1.
    reflexivity.
Qed.

Lemma map_result_inv {A B : Type} (f : A -> result B) (l : list A) (r : list B) :
  map_result f l = Return r -> Forall2 (fun a b => f a = Return b) l r.
Proof.
  revert r. induction l as [| a t IH]; cbn [map_result]; intros r E.
  - injection E as <-. constructor.
  - destruct (f a) as [b |] eqn:Eb; [| discriminate E]. cbn [bind] in E.
    destruct (map_result f t) as [r' |]; [| discriminate E]. cbn [bind] in E.
    injection E as <-. constructor; [exact Eb | apply IH; reflexivity].
Qed.

Lemma scale_bbox_shape (scales : Q * Q) (b b' : list Q) :
  SegmapManager.scale_bbox scales b = Return b' -> length b = length b'.
Proof.
  unfold SegmapManager.scale_bbox. intros E.
  destruct (reshape_pairs b) as [ps |] eqn:Eps; [| discriminate E].
  cbn [bind] in E. injection E as <-.
  rewrite (proj1 (reshape_pairs_inv b) ps Eps). clear Eps.
  unfold reshape_flat.
  induction ps as [| p t IH]; [reflexivity |].
  cbn [map flat_map app length]. rewrite IH. reflexivity.
Qed.

Lemma scale_bbox_by_one (scales : Q * Q) (b b' : list Q) :
  (fst scales == 1)%Q -> (snd scales == 1)%Q ->
  SegmapManager.scale_bbox scales b = Return b' -> Forall2 Qeq b b'.
Proof.
  unfold SegmapManager.scale_bbox. intros Hx Hy E.
  destruct (reshape_pairs b) as [ps |] eqn:Eps; [| discriminate E].
  cbn [bind] in E. injection E as <-.
  rewrite (proj1 (reshape_pairs_inv b) ps Eps). clear Eps.
  unfold reshape_flat.
  induction ps as [| p t IH]; [constructor |].
  cbn [map flat_map app fst snd].
  constructor; [rewrite Hx; ring |]. constructor; [rewrite Hy; ring | exact IH].
Qed.

Ltac bind_inv E :=
  match type of E with
  | bind ?r _ = Return _ =>
    let Er := fresh "Er" in
    destruct r eqn:Er; cbn [bind] in E; [| discriminate E]
  end.

Lemma rescale_markup_shape `{Pillow} (im : image) (markup : list Markup)
    (nc : net_config) (max_side : option Z)
    (resized_image : image) (resized_markup : list Markup) :
  SegmapManager._rescale_image_and_markup im markup nc max_side
  = Return (resized_image, resized_markup) ->
  Forall2 same_markup_shape markup resized_markup.
Proof.
  unfold SegmapManager._rescale_image_and_markup.
  destruct (size im) as [w h]. intros E.
  bind_inv E. destruct a as [new_w new_h]. bind_inv E.
  destruct markup as [| o rest].
  - injection E as _ <-. constructor.
  - bind_inv E. bind_inv E. bind_inv E. injection E as _ <-.
    apply map_result_inv in Er3.
    eapply Forall2_impl; [| exact Er3]. cbn beta.
    intros m m' Em. bind_inv Em. injection Em as <-.
    apply scale_bbox_shape in Er4.
    split; [destruct m; reflexivity | destruct m; exact Er4].
Qed.

(** Whatever the new size, the rescaled markup keeps the objects in order,
    each with its variant, its class id and its number of coordinates. *)
Theorem rescale_keeps_markup_shape `{Pillow} (im : image) (markup : list Markup)
    (nc : net_config) (max_side : option Z)
    (resized_image : image) (resized_markup : list Markup) :
  SegmapManager._rescale_image_and_markup im markup nc max_side
  = Return (resized_image, resized_markup) ->
  Forall2 same_markup_shape markup resized_markup.
Proof. apply rescale_markup_shape. Qed.

Lemma rescale_keeps_markup_shape_witness :
  exists resized_image resized_markup,
    @SegmapManager._rescale_image_and_markup sample_pillow (blank_image 200 100)
      scenario_markup usual_config (Some 64)
    = Return (resized_image, resized_markup) /\
    Forall2 same_markup_shape scenario_markup resized_markup.
Proof.
  destruct (@SegmapManager._rescale_image_and_markup sample_pillow
              (blank_image 200 100) scenario_markup usual_config (Some 64))
    as [[resized_image resized_markup] | e] eqn:E.
  - exists resized_image, resized_markup. split; [reflexivity |].
    exact (@rescale_keeps_markup_shape sample_pillow _ _ _ _ _ _ E).
  - vm_compute in E. discriminate E.
Defined.

Lemma same_markup_refl (o : Markup) : same_markup o o.
Proof.
  split; [reflexivity |].
  induction (bbox o); constructor; [reflexivity | assumption].
Qed.

(** Rescaling an image whose dimensions already are multiples of the side
    multiple and within the cap changes neither the dimensions nor the
    markup: the second pass of the preparation is the identity on what the
    first pass produced. *)
Theorem rescale_idempotent `{Pillow} (im : image) (markup : list Markup)
    (nc : net_config) (max_side : option Z) :
  0 < get_side_multiple nc ->
  0 < fst (size im) -> 0 < snd (size im) ->
  (get_side_multiple nc | fst (size im)) ->
  (get_side_multiple nc | snd (size im)) ->
  Z.max (fst (size im)) (snd (size im)) <= cap_in_force nc max_side ->
  Forall (fun o => Nat.even (length (bbox o)) = true) markup ->
  exists resized_image resized_markup,
    SegmapManager._rescale_image_and_markup im markup nc max_side
    = Return (resized_image, resized_markup) /\
    size resized_image = size im /\
    Forall2 same_markup markup resized_markup.
Proof.
  intros Hm HW HH HdW HdH Hcap Hpairs.
  unfold SegmapManager._rescale_image_and_markup.
  destruct (size im) as [W Ht] eqn:Hsize. cbn [fst snd] in *.
  fold (cap_in_force nc max_side).
  rewrite new_size_fixed_point by assumption. cbn [bind].
  unfold Image_resize. cbn [fst snd].
  replace ((W <=? 0) || (Ht <=? 0)) with false
    by (symmetry; apply orb_false_iff; split; apply Z.leb_gt; lia).
  destruct markup as [| o rest].
  - eexists _, _. split; [reflexivity |]. split; [reflexivity | constructor].
  - rewrite !truediv_inject_Z by lia. cbn [bind].
    match goal with
    | |- context [map_result ?f ?l] =>
      destruct (map_result_returns f l) as [r Er]
    end.
    { eapply Forall_impl; [| exact Hpairs]. cbn beta. intros a Ha.
      unfold SegmapManager.scale_bbox.
      destruct (proj1 (reshape_pairs_even_length (bbox a)) Ha) as [ps Eps].
      rewrite Eps. cbn [bind]. eexists. reflexivity. }
    rewrite Er. cbn [bind].
    eexists _, _. split; [reflexivity |]. split; [reflexivity |].
    apply map_result_inv in Er.
    eapply Forall2_impl; [| exact Er]. cbn beta.
    intros a a' Ea. bind_inv Ea. injection Ea as <-.
    apply scale_bbox_by_one in Er0.
    + split; [destruct a; reflexivity | destruct a; exact Er0].
    + cbn [fst]. field. unfold Qeq; cbn; lia.
    + cbn [snd]. field. unfold Qeq; cbn; lia.
Qed.

Lemma rescale_idempotent_witness :
  exists resized_image resized_markup,
    @SegmapManager._rescale_image_and_markup sample_pillow (blank_image 64 32)
      scenario_markup usual_config None
    = Return (resized_image, resized_markup) /\
    size resized_image = size (blank_image 64 32) /\
    Forall2 same_markup scenario_markup resized_markup.
Proof.
  apply (@rescale_idempotent sample_pillow (blank_image 64 32) scenario_markup
           usual_config None); cbn; try lia.
  - exists 2. reflexivity.
  - exists 1. reflexivity.
  - repeat constructor.
Defined.

Lemma to_multiple_plain (a m : Z) :
  0 < m ->
  SegmapManager.to_multiple (inject_Z a) m
  = Return (Z.max 1 (py_round (inject_Z a / inject_Z m)) * m).
Proof.
  intros Hm. unfold SegmapManager.to_multiple.
  rewrite truediv_inject_Z by lia. reflexivity.
Qed.

Lemma to_multiple_scaled (a M x m : Z) :
  0 < x -> 0 < m ->
  SegmapManager.to_multiple (inject_Z a * (inject_Z M / inject_Z x)) m
  = Return (Z.max 1 (py_round (inject_Z (a * M) / inject_Z (x * m))) * m).
Proof.
  intros Hx Hm. unfold SegmapManager.to_multiple.
  rewrite truediv_inject_Z by lia. cbn [bind].
  rewrite (py_round_comp _ (inject_Z (a * M) / inject_Z (x * m))); [reflexivity |].
  rewrite !inject_Z_mult. field. split; unfold Qeq; cbn; lia.
Qed.

(** The quantised side: a multiple of [m], within half a multiple of the
    exact side [a / x] once that is at least half a multiple, and one
    multiple below that. *)
Lemma quantized_side (a x m : Z) :
  0 < x -> 0 < m ->
  let v := Z.max 1 (py_round (inject_Z a / inject_Z (x * m))) * m in
  (m | v) /\ m <= v /\
  (m * x <= 2 * a -> 2 * Z.abs (v * x - a) <= m * x) /\
  (2 * a < m * x -> v = m).
Proof.
  intros Hx Hm v.
  pose proof (py_round_div_bounds a (x * m) ltac:(nia)) as Hr.
  subst v. set (r := py_round (inject_Z a / inject_Z (x * m))) in *.
  assert (Ht : 0 < x * m) by nia.
  set (t := x * m) in *.
  split; [exists (Z.max 1 r); reflexivity |].
  destruct (Z.max_spec 1 r) as [[Hlt ->] | [Hge ->]].
  - assert (Hv : r * m * x = r * t) by (unfold t; ring).
    assert (Hmx : m * x = t) by (unfold t; ring).
    rewrite Hv, Hmx.
    split; [nia |]. split; [intros _; apply Z.abs_le; nia | intros Hsmall; nia].
  - assert (Hv : 1 * m * x = t) by (unfold t; ring).
    assert (Hmx : m * x = t) by (unfold t; ring).
    rewrite Hv, Hmx.
    split; [lia |]. split; [intros Hbig; apply Z.abs_le; nia | intros _; lia].
Qed.

(** Without downscaling (both sides within the cap) each side is only
    quantised: it becomes a multiple of the side multiple that differs from
    the original side by at most half a multiple, except that a side
    shorter than half a multiple is raised to one multiple. *)
Theorem new_size_quantizes (w h m M : Z) :
  0 < m -> 0 < w -> 0 < h -> Z.max w h <= M ->
  exists W H,
    SegmapManager.new_size w h m M = Return (W, H) /\
    (m | W) /\ (m | H) /\
    (m <= 2 * w -> 2 * Z.abs (W - w) <= m) /\ (2 * w < m -> W = m) /\
    (m <= 2 * h -> 2 * Z.abs (H - h) <= m) /\ (2 * h < m -> H = m).
Proof.
  intros Hm Hw Hh Hcap. unfold SegmapManager.new_size.
  replace (Z.max w h >? M) with false
    by (symmetry; rewrite Z.gtb_ltb; apply Z.ltb_ge; exact Hcap).
  rewrite !to_multiple_plain by exact Hm. cbn [bind].
  eexists _, _. split; [reflexivity |].
  destruct (quantized_side w 1 m ltac:(lia) Hm) as (Hdw & _ & Hbw & Hsw).
  destruct (quantized_side h 1 m ltac:(lia) Hm) as (Hdh & _ & Hbh & Hsh).
  rewrite Z.mul_1_l in Hdw, Hbw, Hsw, Hdh, Hbh, Hsh.
  rewrite !Z.mul_1_r in Hbw, Hsw, Hbh, Hsh.
  rewrite (Z.mul_1_r (_ * m)) in Hbw. rewrite (Z.mul_1_r (_ * m)) in Hbh.
  exact (conj Hdw (conj Hdh (conj Hbw (conj Hsw (conj Hbh Hsh))))).
Qed.

Lemma new_size_quantizes_witness :
  exists W H,
    SegmapManager.new_size 100 70 32 512 = Return (W, H) /\
    (32 | W) /\ (32 | H) /\
    (32 <= 2 * 100 -> 2 * Z.abs (W - 100) <= 32) /\ (2 * 100 < 32 -> W = 32) /\
    (32 <= 2 * 70 -> 2 * Z.abs (H - 70) <= 32) /\ (2 * 70 < 32 -> H = 32).
Proof. apply new_size_quantizes; cbn; lia. Defined.

(** With downscaling (the longer side above the cap) the longer side
    becomes the cap itself and the shorter side a multiple of the side
    multiple; the shorter side keeps the aspect ratio up to half a multiple
    whenever the proportional side is at least half a multiple. *)
Theorem new_size_downscales (w h m M : Z) :
  0 < m -> 0 < w -> 0 < h -> M < Z.max w h ->
  exists W H,
    SegmapManager.new_size w h m M = Return (W, H) /\
    (h < w -> W = M /\ (m | H) /\ m <= H /\
              (m * w <= 2 * (h * M) -> 2 * Z.abs (H * w - h * M) <= m * w)) /\
    (w <= h -> H = M /\ (m | W) /\ m <= W /\
               (m * h <= 2 * (w * M) -> 2 * Z.abs (W * h - w * M) <= m * h)).
Proof.
  intros Hm Hw Hh Hcap. unfold SegmapManager.new_size.
  replace (Z.max w h >? M) with true
    by (symmetry; rewrite Z.gtb_ltb; apply Z.ltb_lt; exact Hcap).
  rewrite truediv_inject_Z by lia. cbn [bind].
  destruct (w >? h) eqn:Hwh.
  - assert (Hlt : h < w) by (destruct (Z.gtb_spec w h); [lia | discriminate]).
    rewrite (Z.max_r h w) by lia.
    rewrite to_multiple_scaled by lia. cbn [bind].
    eexists _, _. split; [reflexivity |].
    split; [intros _ | intros; lia].
    destruct (quantized_side (h * M) w m Hw Hm) as (Hd & Hge & Hb & _).
    exact (conj eq_refl (conj Hd (conj Hge Hb))).
  - assert (Hle : w <= h) by (destruct (Z.gtb_spec w h); [discriminate | lia]).
    rewrite (Z.max_l h w) by lia.
    rewrite to_multiple_scaled by lia. cbn [bind].
    eexists _, _. split; [reflexivity |].
    split; [intros; lia | intros _].
    destruct (quantized_side (w * M) h m Hh Hm) as (Hd & Hge & Hb & _).
    exact (conj eq_refl (conj Hd (conj Hge Hb))).
Qed.

Lemma new_size_downscales_witness :
  exists W H,
    SegmapManager.new_size 2000 1000 32 512 = Return (W, H) /\
    (1000 < 2000 -> W = 512 /\ (32 | H) /\ 32 <= H /\
       (32 * 2000 <= 2 * (1000 * 512) ->
        2 * Z.abs (H * 2000 - 1000 * 512) <= 32 * 2000)) /\
    (2000 <= 1000 -> H = 512 /\ (32 | W) /\ 32 <= W /\
       (32 * 1000 <= 2 * (2000 * 512) ->
        2 * Z.abs (W * 1000 - 2000 * 512) <= 32 * 1000)).
Proof. apply new_size_downscales; cbn; lia. Defined.

(** A side multiple of 0 makes the rescaler raise [ZeroDivisionError],
    whatever the image and the markup. *)
Theorem rescale_zero_side_multiple `{Pillow} (im : image) (markup : list Markup)
    (nc : net_config) (max_side : option Z) :
  get_side_multiple nc = 0 ->
  SegmapManager._rescale_image_and_markup im markup nc max_side
  = Raise ZeroDivisionError.
Proof.
  intros Hzero. unfold SegmapManager._rescale_image_and_markup.
  destruct (size im) as [w h]. rewrite Hzero.
  assert (Hnew : forall M, SegmapManager.new_size w h 0 M = Raise ZeroDivisionError).
  { intros M. unfold SegmapManager.new_size, SegmapManager.to_multiple.
    destruct (Z.max w h >? M).
    - unfold truediv at 1. destruct (Qeq_bool (inject_Z (Z.max h w)) 0);
        [reflexivity |]. cbn [bind].
      destruct (w >? h); reflexivity.
    - reflexivity. }
  rewrite Hnew. reflexivity.
Qed.

Lemma rescale_zero_side_multiple_witness :
  @SegmapManager._rescale_image_and_markup sample_pillow (blank_image 200 100)
    scenario_markup
    {| get_scale := 4; get_side_multiple := 0; get_max_side := 512;
       is_classification_supported := true;
       get_class_name := fun _ => EmptyString |} None
  = Raise ZeroDivisionError.
Proof. apply (@rescale_zero_side_multiple sample_pillow). reflexivity. Defined.

Lemma to_multiple_whole_cap (a k m : Z) :
  0 < a -> 0 < m -> 1 <= k ->
  SegmapManager.to_multiple (inject_Z a * (inject_Z (k * m) / inject_Z a)) m
  = Return (k * m).
Proof.
  intros Ha Hm Hk. rewrite to_multiple_scaled by assumption.
  rewrite (py_round_comp _ (inject_Z k)).
  - rewrite py_round_inject_Z, Z.max_r by lia. reflexivity.
  - rewrite !inject_Z_mult. field. split; unfold Qeq; cbn; lia.
Qed.

(** Exchanging width and height exchanges the new width and height, for
    every image that is not square, and for square images when the cap is
    a positive multiple of the side multiple. *)
Theorem new_size_transpose (w h m M : Z) :
  0 < m -> 0 < w -> 0 < h ->
  w <> h \/ (0 < M /\ (m | M)) ->
  SegmapManager.new_size h w m M
  = (dims <- SegmapManager.new_size w h m M ;; Return (snd dims, fst dims)).
Proof.
  intros Hm Hw Hh Hshape. unfold SegmapManager.new_size.
  rewrite (Z.max_comm h w).
  destruct (Z.max w h >? M) eqn:Hbig.
  - rewrite truediv_inject_Z by lia. cbn [bind].
    destruct (Z.gtb_spec w h) as [Hgt | Hle];
      destruct (Z.gtb_spec h w) as [Hgt' | Hle']; try lia.
    + rewrite (Z.max_l w h) by lia. rewrite !to_multiple_scaled by lia. reflexivity.
    + rewrite (Z.max_r w h) by lia. rewrite !to_multiple_scaled by lia. reflexivity.
    + assert (h = w) by lia. subst h.
      destruct Hshape as [Hne | [HM [k ->]]]; [lia |].
      rewrite Z.max_id. rewrite to_multiple_whole_cap by nia. reflexivity.
  - rewrite !to_multiple_plain by exact Hm. reflexivity.
Qed.

Lemma new_size_transpose_witness :
  SegmapManager.new_size 1000 2000 32 512
  = (dims <- SegmapManager.new_size 2000 1000 32 512 ;; Return (snd dims, fst dims)).
Proof. apply new_size_transpose; lia. Defined.

(** A square image above a cap that is not a multiple of the side multiple
    does not stay square. *)
Example new_size_square_not_kept :
  SegmapManager.new_size 20 20 3 10 = Return (9, 10).
Proof. reflexivity. Qed.

(** ** Pixels of the segmentation map *)

Lemma find_painter {A : Type} (p : A -> bool) (l : list A) :
  (exists o, find p (rev l) = Some o /\ In o l /\ p o = true) \/
  (find p (rev l) = None /\ forall o, In o l -> p o = false).
Proof.
  destruct (find p (rev l)) as [o |] eqn:E.
  - left. exists o. destruct (find_some _ _ E) as [Hin Hp].
    split; [reflexivity |]. split; [apply in_rev; exact Hin | exact Hp].
  - right. split; [reflexivity |]. intros o Hin.
    apply (find_none _ _ E). apply in_rev in Hin. exact Hin.
Qed.

(** For coordinates that, divided by the scale, fit in 32 bits: every
    pixel of the map is either background, 0, and then no object paints
    it, or holds the fill value of an object that paints it, a value
    between 1 and 255. *)
Theorem segmentation_map_pixels `{Pillow} (im : image) (markup : list Markup)
    (scale : Z) (for_drawing : bool) :
  0 < scale -> 0 <= fst (size im) -> 0 <= snd (size im) ->
  (scale | fst (size im)) -> (scale | snd (size im)) ->
  for_drawing = true \/ Forall (fun o => 1 <= spec_fill false o <= 255) markup ->
  markup_in_range scale markup ->
  exists seg,
    SegmapManager.build_segmentation_map im markup scale for_drawing = Return seg /\
    forall x y,
      (getpixel seg x y = 0 /\
       forall o, In o markup -> paints scale (size seg) o x y = false) \/
      (exists o, In o markup /\ paints scale (size seg) o x y = true /\
                 getpixel seg x y = spec_fill for_drawing o /\
                 1 <= getpixel seg x y <= 255).
Proof.
  intros Hs Hw Hh Hdw Hdh Hfill Hrange.
  rewrite build_segmentation_map_divisible by assumption.
  destruct (draw_markup_last_wins scale for_drawing markup
              (blank_image (fst (size im) / scale) (snd (size im) / scale)))
    as (seg & Eseg & Hsize & Hpix).
  { destruct Hfill as [Hd | Hall]; [left; exact Hd | right].
    eapply Forall_impl; [| exact Hall]. cbn beta. intros; lia. }
  { exact Hrange. }
  exists seg. split; [exact Eseg |].
  intros x y. rewrite Hsize, Hpix.
  destruct (find_painter
              (fun o => paints scale
                          (size (blank_image (fst (size im) / scale)
                                             (snd (size im) / scale))) o x y)
              markup) as [(o & -> & Hin & Hp) | [-> Hnone]].
  - right. exists o. split; [exact Hin |]. split; [exact Hp |].
    split; [reflexivity |].
    destruct Hfill as [-> | Hall]; [cbn; lia |].
    rewrite Forall_forall in Hall. destruct for_drawing; [cbn; lia |].
    apply Hall, Hin.
  - left. split; [reflexivity | exact Hnone].
Qed.

Lemma segmentation_map_pixels_witness :
  exists seg,
    @SegmapManager.build_segmentation_map sample_pillow (blank_image 200 200)
      scenario_markup 4 false = Return seg /\
    forall x y,
      (getpixel seg x y = 0 /\
       forall o, In o scenario_markup ->
                 @paints sample_pillow 4 (size seg) o x y = false) \/
      (exists o, In o scenario_markup /\
                 @paints sample_pillow 4 (size seg) o x y = true /\
                 getpixel seg x y = spec_fill false o /\
                 1 <= getpixel seg x y <= 255).
Proof.
  apply (@segmentation_map_pixels sample_pillow (blank_image 200 200)
           scenario_markup 4 false); cbn [blank_image size fst snd]; try lia.
  - exists 50. reflexivity.
  - exists 50. reflexivity.
  - right. unfold scenario_markup. repeat constructor; cbn; lia.
  - unfold markup_in_range, scenario_markup.
    repeat constructor; vm_compute; discriminate.
Defined.

(** In drawing mode, for coordinates that divided by the scale fit in 32
    bits, the map is binary whatever the class ids are: 255 on the pixels
    some object paints, 0 elsewhere. *)
Theorem drawing_map_is_binary `{Pillow} (im : image) (markup : list Markup)
    (scale : Z) :
  0 < scale -> 0 <= fst (size im) -> 0 <= snd (size im) ->
  (scale | fst (size im)) -> (scale | snd (size im)) ->
  markup_in_range scale markup ->
  exists seg,
    SegmapManager.build_segmentation_map im markup scale true = Return seg /\
    forall x y,
      getpixel seg x y
      = if existsb (fun o => paints scale (size seg) o x y) markup then 255 else 0.
Proof.
  intros Hs Hw Hh Hdw Hdh Hrange.
  rewrite build_segmentation_map_divisible by assumption.
  destruct (draw_markup_last_wins scale true markup
              (blank_image (fst (size im) / scale) (snd (size im) / scale)))
    as (seg & Eseg & Hsize & Hpix); [left; reflexivity | exact Hrange |].
  exists seg. split; [exact Eseg |].
  intros x y. rewrite Hsize, Hpix.
  match goal with
  | |- context [find ?p (rev markup)] =>
    destruct (find_painter p markup) as [(o & -> & Hin & Hp) | [-> Hnone]]
  end.
  - replace (existsb _ markup) with true; [reflexivity |].
    symmetry. apply existsb_exists. exists o. split; assumption.
  - replace (existsb _ markup) with false; [reflexivity |].
    symmetry. apply not_true_is_false. intros Hex.
    apply existsb_exists in Hex. destruct Hex as (o & Hin & Hp).
    rewrite (Hnone o Hin) in Hp. discriminate Hp.
Qed.

Lemma drawing_map_is_binary_witness :
  exists seg,
    @SegmapManager.build_segmentation_map sample_pillow (blank_image 200 200)
      [ClassifiedObjectMarkup [10; 10; 50; 10; 50; 50; 10; 50]%Q 300] 4 true
    = Return seg /\
    forall x y,
      getpixel seg x y
      = if existsb (fun o => @paints sample_pillow 4 (size seg) o x y)
             [ClassifiedObjectMarkup [10; 10; 50; 10; 50; 50; 10; 50]%Q 300]
        then 255 else 0.
Proof.
  apply (@drawing_map_is_binary sample_pillow (blank_image 200 200));
    cbn [blank_image size fst snd];
    first [ lia
          | exists 50; reflexivity
          | unfold markup_in_range; repeat constructor; vm_compute; discriminate ].
Defined.

(** The drawing order matters only where objects with different fill
    values overlap: for coordinates that divided by the scale fit in 32
    bits, when any two objects that paint a common pixel have the same fill
    value, every reordering of the markup gives the same map. *)
Theorem segmentation_map_order_irrelevant `{Pillow} (im : image)
    (markup markup' : list Markup) (scale : Z) (for_drawing : bool) :
  0 < scale -> 0 <= fst (size im) -> 0 <= snd (size im) ->
  (scale | fst (size im)) -> (scale | snd (size im)) ->
  for_drawing = true \/ Forall (fun o => spec_fill false o <= 255) markup ->
  markup_in_range scale markup ->
  Permutation markup markup' ->
  (forall x y o1 o2,
     In o1 markup -> In o2 markup ->
     paints scale (fst (size im) / scale, snd (size im) / scale) o1 x y = true ->
     paints scale (fst (size im) / scale, snd (size im) / scale) o2 x y = true ->
     spec_fill for_drawing o1 = spec_fill for_drawing o2) ->
  exists seg seg',
    SegmapManager.build_segmentation_map im markup scale for_drawing = Return seg /\
    SegmapManager.build_segmentation_map im markup' scale for_drawing = Return seg' /\
    size seg = size seg' /\
    forall x y, getpixel seg x y = getpixel seg' x y.
Proof.
  intros Hs Hw Hh Hdw Hdh Hfill Hrange Hperm Hoverlap.
  rewrite !build_segmentation_map_divisible by assumption.
  set (blank := blank_image (fst (size im) / scale) (snd (size im) / scale)).
  destruct (draw_markup_last_wins scale for_drawing markup blank Hfill Hrange)
    as (seg & Eseg & Hsize & Hpix).
  destruct (draw_markup_last_wins scale for_drawing markup' blank)
    as (seg' & Eseg' & Hsize' & Hpix').
  { destruct Hfill as [Hd | Hall]; [left; exact Hd | right].
    eapply Permutation_Forall; eassumption. }
  { unfold markup_in_range. eapply Permutation_Forall; eassumption. }
  exists seg, seg'. split; [exact Eseg |]. split; [exact Eseg' |].
  split; [congruence |].
  intros x y. rewrite Hpix, Hpix'.
  destruct (find_painter (fun o => paints scale (size blank) o x y) markup)
    as [(o & -> & Hin & Hp) | [-> Hnone]];
    destruct (find_painter (fun o => paints scale (size blank) o x y) markup')
      as [(o' & -> & Hin' & Hp') | [-> Hnone']].
  - apply (Hoverlap x y o o'); try assumption.
    apply (Permutation_in _ (Permutation_sym Hperm)). exact Hin'.
  - rewrite (Hnone' o (Permutation_in _ Hperm Hin)) in Hp. discriminate Hp.
  - rewrite (Hnone o' (Permutation_in _ (Permutation_sym Hperm) Hin')) in Hp'.
    discriminate Hp'.
  - reflexivity.
Qed.

Lemma apart_markup_drawn :
  SegmapManager.drawn_bbox 4
    (ClassifiedObjectMarkup [10; 10; 50; 10; 50; 50; 10; 50]%Q 2)
  = Return [2; 2; 13; 2; 13; 13; 2; 13] /\
  SegmapManager.drawn_bbox 4
    (ClassifiedObjectMarkup [100; 100; 140; 100; 140; 140; 100; 140]%Q 4)
  = Return [25; 25; 35; 25; 35; 35; 25; 35].
Proof. split; vm_compute; reflexivity. Defined.

Lemma segmentation_map_order_irrelevant_witness :
  exists seg seg',
    @SegmapManager.build_segmentation_map sample_pillow (blank_image 200 200)
      apart_markup 4 false = Return seg /\
    @SegmapManager.build_segmentation_map sample_pillow (blank_image 200 200)
      (rev apart_markup) 4 false = Return seg' /\
    size seg = size seg' /\
    forall x y, getpixel seg x y = getpixel seg' x y.
Proof.
  apply (@segmentation_map_order_irrelevant sample_pillow (blank_image 200 200)
           apart_markup (rev apart_markup) 4 false);
    cbn [blank_image size fst snd];
    try first [ lia
              | exists 50; reflexivity
              | apply Permutation_rev ].
  - right. unfold apart_markup. repeat constructor; cbn; lia.
  - unfold markup_in_range, apart_markup.
    repeat constructor; vm_compute; discriminate.
  - destruct apart_markup_drawn as [Ea Eb].
    assert (Ha : forall x y,
               @paints sample_pillow 4 (200 / 4, 200 / 4)
                 (ClassifiedObjectMarkup [10; 10; 50; 10; 50; 50; 10; 50]%Q 2) x y
               = true -> x <= 13).
    { intros x y P. unfold paints in P. rewrite Ea in P.
      cbn [polygon_pixels sample_pillow] in P. unfold bounding_box_pixels in P.
      cbn [slice_even slice_odd tl] in P.
      apply andb_prop in P. destruct P as [_ P].
      apply andb_prop in P. destruct P as [P _].
      apply andb_prop in P. destruct P as [P _].
      apply andb_prop in P. destruct P as [_ P].
      apply existsb_exists in P. destruct P as (a & Hin & Hle).
      apply Z.leb_le in Hle. cbn [In] in Hin.
      destruct Hin as [<- | [<- | [<- | [<- | []]]]]; lia. }
    assert (Hb : forall x y,
               @paints sample_pillow 4 (200 / 4, 200 / 4)
                 (ClassifiedObjectMarkup
                    [100; 100; 140; 100; 140; 140; 100; 140]%Q 4) x y
               = true -> 25 <= x).
    { intros x y P. unfold paints in P. rewrite Eb in P.
      cbn [polygon_pixels sample_pillow] in P. unfold bounding_box_pixels in P.
      cbn [slice_even slice_odd tl] in P.
      apply andb_prop in P. destruct P as [_ P].
      apply andb_prop in P. destruct P as [P _].
      apply andb_prop in P. destruct P as [P _].
      apply andb_prop in P. destruct P as [P _].
      apply existsb_exists in P. destruct P as (a & Hin & Hle).
      apply Z.leb_le in Hle. cbn [In] in Hin.
      destruct Hin as [<- | [<- | [<- | [<- | []]]]]; lia. }
    intros x y o1 o2 [<- | [<- | []]] [<- | [<- | []]] P1 P2;
      try reflexivity; exfalso.
    + pose proof (Ha x y P1). pose proof (Hb x y P2). lia.
    + pose proof (Hb x y P1). pose proof (Ha x y P2). lia.
Defined.

(** A scale that is not positive never yields a map of an image with
    positive dimensions: scale 0 raises [ZeroDivisionError]; a negative
    scale that does not divide both dimensions fails the assertion, and one
    that divides both is refused when the map is allocated. *)
Theorem build_segmentation_map_bad_scale `{Pillow} (im : image)
    (markup : list Markup) (scale : Z) (for_drawing : bool) :
  scale <= 0 -> 0 < fst (size im) -> 0 < snd (size im) ->
  SegmapManager.build_segmentation_map im markup scale for_drawing
  = Raise (if scale =? 0 then ZeroDivisionError
           else if (fst (size im) mod scale =? 0) && (snd (size im) mod scale =? 0)
                then ValueError "Width and height must be >= 0"
                else AssertionError None).
Proof.
  intros Hs Hw Hh. unfold SegmapManager.build_segmentation_map.
  destruct (size im) as [w h]. cbn [fst snd] in *.
  unfold py_mod, py_floordiv.
  destruct (scale =? 0) eqn:Hzero; [reflexivity |]. cbn [bind].
  apply Z.eqb_neq in Hzero.
  destruct (w mod scale =? 0) eqn:Ew; cbn [bind andb]; [| reflexivity].
  destruct (h mod scale =? 0) eqn:Eh; cbn [bind py_assert]; [| reflexivity].
  unfold Image_new. cbn [fst snd].
  replace (w / scale <? 0) with true; [reflexivity |].
  symmetry. apply Z.ltb_lt.
  apply Z.eqb_eq in Ew. apply Z.mod_divide in Ew; [| exact Hzero].
  destruct Ew as [k ->]. rewrite Z.div_mul by exact Hzero. nia.
Qed.

Lemma build_segmentation_map_bad_scale_witness :
  @SegmapManager.build_segmentation_map sample_pillow (blank_image 200 200)
    scenario_markup (-4) false
  = Raise (ValueError "Width and height must be >= 0").
Proof.
  apply (@build_segmentation_map_bad_scale sample_pillow (blank_image 200 200)
           scenario_markup (-4) false); cbn [blank_image size fst snd]; lia.
Defined.

(** ** Preparing an image and its target *)

Lemma slice_odd_cons2 {A : Type} (a b : A) (l : list A) :
  slice_odd (a :: b :: l) = b :: slice_odd l.
Proof. destruct l; reflexivity. Qed.

Lemma slices_of_flat (ps : list (Q * Q)) :
  slice_even (reshape_flat ps) = map fst ps /\
  slice_odd (reshape_flat ps) = map snd ps.
Proof.
  unfold reshape_flat. induction ps as [| p t [IHe IHo]]; [split; reflexivity |].
  cbn [flat_map app map]. rewrite slice_odd_cons2.
  cbn [slice_even]. fold (slice_odd (A := Q)).
  split; f_equal; assumption.
Qed.

Lemma Forall_of_slices {A : Type} (P : A -> Prop) (l : list A) :
  (Forall P (slice_even l) -> Forall P (slice_odd l) -> Forall P l) /\
  (forall a, Forall P (slice_even (a :: l)) -> Forall P (slice_odd (a :: l)) ->
             Forall P (a :: l)).
Proof.
  induction l as [| b t [IHe IHo]].
  - split; [intros; constructor |].
    intros a He _. exact He.
  - split; [apply IHo |].
    intros a He Ho. rewrite slice_odd_cons2 in Ho.
    cbn [slice_even] in He.
    inversion He as [| ? ? Ha He']; subst. inversion Ho as [| ? ? Hb Ho']; subst.
    constructor; [exact Ha |]. constructor; [exact Hb |].
    apply IHe; [destruct t; assumption | exact Ho'].
Qed.

Lemma scaled_inside (x : Q) (w W : Z) :
  0 < w -> 0 <= W -> (0 <= x <= inject_Z w)%Q ->
  (0 <= x * (inject_Z W / inject_Z w) <= inject_Z W)%Q.
Proof.
  intros Hw HW [Hx0 Hxw].
  assert (Hwq : (0 < inject_Z w)%Q)
    by (change 0%Q with (inject_Z 0); rewrite <- Zlt_Qlt; exact Hw).
  assert (HWq : (0 <= inject_Z W)%Q)
    by (change 0%Q with (inject_Z 0); rewrite <- Zle_Qle; exact HW).
  assert (Hr : (0 <= inject_Z W / inject_Z w)%Q).
  { apply Qle_shift_div_l; [exact Hwq |]. rewrite Qmult_0_l. exact HWq. }
  split.
  - apply Qmult_le_0_compat; assumption.
  - apply Qle_trans with (y := (inject_Z w * (inject_Z W / inject_Z w))%Q).
    + apply Qmult_le_compat_r; assumption.
    + apply Qle_lteq. right. field. intros E. rewrite E in Hwq.
      exact (Qlt_irrefl _ Hwq).
Qed.

Lemma scale_bbox_inside (w h W H : Z) (b b' : list Q) :
  0 < w -> 0 < h -> 0 <= W -> 0 <= H ->
  SegmapManager.scale_bbox
    ((inject_Z W / inject_Z w)%Q, (inject_Z H / inject_Z h)%Q) b = Return b' ->
  Forall (fun x => (0 <= x <= inject_Z w)%Q) (slice_even b) ->
  Forall (fun y => (0 <= y <= inject_Z h)%Q) (slice_odd b) ->
  Forall (fun x => (0 <= x <= inject_Z W)%Q) (slice_even b') /\
  Forall (fun y => (0 <= y <= inject_Z H)%Q) (slice_odd b').
Proof.
  intros Hw Hh HW HH E Hxs Hys. unfold SegmapManager.scale_bbox in E.
  destruct (reshape_pairs b) as [ps |] eqn:Eps; [| discriminate E].
  cbn [bind fst snd] in E. injection E as <-.
  rewrite (proj1 (reshape_pairs_inv b) ps Eps) in Hxs, Hys.
  destruct (slices_of_flat ps) as [Ee Eo]. rewrite Ee in Hxs. rewrite Eo in Hys.
  destruct (slices_of_flat
              (map (fun p => (fst p * (inject_Z W / inject_Z w),
                              snd p * (inject_Z H / inject_Z h))%Q) ps))
    as [-> ->].
  rewrite !map_map. cbn [fst snd].
  rewrite Forall_map in Hxs, Hys.
  split; apply Forall_map.
  - eapply Forall_impl; [| exact Hxs]. cbn beta. intros p Hp.
    apply scaled_inside; assumption.
  - eapply Forall_impl; [| exact Hys]. cbn beta. intros p Hp.
    apply scaled_inside; assumption.
Qed.

(** The rescaler returns on a well-formed input when the cap is a positive
    multiple of the side multiple; the new dimensions are positive
    multiples of the side multiple within the cap, and the rescaled input
    is well formed. *)
Lemma rescale_returns `{Pillow} (im : image) (markup : list Markup)
    (nc : net_config) (max_side : option Z) :
  well_formed_input im markup ->
  0 < get_side_multiple nc -> 0 < cap_in_force nc max_side ->
  (get_side_multiple nc | cap_in_force nc max_side) ->
  exists resized_image resized_markup,
    SegmapManager._rescale_image_and_markup im markup nc max_side
    = Return (resized_image, resized_markup) /\
    (get_side_multiple nc | fst (size resized_image)) /\
    (get_side_multiple nc | snd (size resized_image)) /\
    Z.max (fst (size resized_image)) (snd (size resized_image))
    <= cap_in_force nc max_side /\
    well_formed_input resized_image resized_markup.
Proof.
  unfold well_formed_input, inside_image.
  intros (Hw & Hh & Hmk) Hm HM [k Hk].
  unfold SegmapManager._rescale_image_and_markup.
  destruct (size im) as [w h]. cbn [fst snd] in Hw, Hh, Hmk.
  fold (cap_in_force nc max_side). rewrite Hk in HM |- *.
  destruct (new_size_bounds w h (get_side_multiple nc) k Hw Hh Hm ltac:(nia))
    as (W & Ht & Edims & HW & HH & Hmax & HmW & HmH).
  rewrite Edims. cbn [bind]. unfold Image_resize. cbn [fst snd].
  replace ((W <=? 0) || (Ht <=? 0)) with false
    by (symmetry; apply orb_false_iff; split; apply Z.leb_gt; lia).
  cbn [bind].
  destruct markup as [| o rest].
  - eexists _, _. split; [reflexivity |]. cbn [size fst snd].
    split; [apply Z.mod_divide; [lia | exact HW] |].
    split; [apply Z.mod_divide; [lia | exact HH] |].
    split; [exact Hmax |]. split; [lia |]. split; [lia | constructor].
  - rewrite !truediv_inject_Z by lia. cbn [bind].
    match goal with
    | |- context [map_result ?f ?l] =>
      destruct (map_result_returns f l) as [r Er]
    end.
    { eapply Forall_impl; [| exact Hmk]. cbn beta. intros a [Ha _].
      unfold SegmapManager.scale_bbox.
      destruct (proj1 (reshape_pairs_even_length (bbox a)) Ha) as [ps Eps].
      rewrite Eps. cbn [bind]. eexists. reflexivity. }
    rewrite Er. cbn [bind].
    eexists _, _. split; [reflexivity |]. cbn [size fst snd].
    split; [apply Z.mod_divide; [lia | exact HW] |].
    split; [apply Z.mod_divide; [lia | exact HH] |].
    split; [exact Hmax |]. split; [lia |]. split; [lia |].
    apply map_result_inv in Er. revert Hmk Er.
    generalize (o :: rest). intros l Hmk Er. revert Hmk.
    induction Er as [| m m' t t' Em _ IH]; intros Hmk; [constructor |].
    inversion Hmk as [| ? ? Ho Hrest]; subst.
    destruct Ho as (Heven & Hfill & Hxs & Hys).
    constructor; [| apply IH; exact Hrest].
    bind_inv Em. injection Em as <-.
    pose proof (scale_bbox_shape _ _ _ Er) as Hlen.
    destruct (scale_bbox_inside w h W Ht _ _ Hw Hh ltac:(lia) ltac:(lia) Er Hxs Hys)
      as [Hxs' Hys'].
    destruct m; cbn [create_same_markup bbox spec_fill object_type] in *;
      rewrite <- Hlen; auto.
Qed.

Lemma fits_scaled (c : Q) (M scale : Z) :
  (0 <= c <= inject_Z M)%Q -> M <= int32_max -> 0 < scale ->
  fits_int32 (c / inject_Z scale).
Proof.
  intros [Hc0 HcM] HM Hs.
  assert (Hsq : (0 < inject_Z scale)%Q)
    by (change 0%Q with (inject_Z 0); rewrite <- Zlt_Qlt; exact Hs).
  assert (HM0 : 0 <= M).
  { rewrite Zle_Qle. apply Qle_trans with (y := c); assumption. }
  assert (Hlo : (inject_Z 0 <= c / inject_Z scale)%Q).
  { apply Qle_shift_div_l; [exact Hsq |]. rewrite Qmult_0_l. exact Hc0. }
  assert (Hhi : (c / inject_Z scale <= inject_Z M)%Q).
  { apply Qle_shift_div_r; [exact Hsq |].
    apply Qle_trans with (y := inject_Z M); [exact HcM |].
    rewrite <- inject_Z_mult, <- Zle_Qle. nia. }
  apply Qfloor_resp_le in Hlo. apply Qceiling_resp_le in Hhi.
  rewrite Qfloor_Z in Hlo. rewrite Qceiling_Z in Hhi.
  unfold fits_int32, int32_min in *. lia.
Qed.

(** A well-formed input within a cap that fits in 32 bits is in range for
    every positive scale. *)
Lemma well_formed_in_range (im : image) (markup : list Markup) (M scale : Z) :
  well_formed_input im markup ->
  Z.max (fst (size im)) (snd (size im)) <= M -> M <= int32_max -> 0 < scale ->
  markup_in_range scale markup.
Proof.
  unfold well_formed_input, inside_image, markup_in_range.
  intros (Hw & Hh & Hmk) Hcap HM Hs.
  eapply Forall_impl; [| exact Hmk]. cbn beta.
  intros o (_ & _ & Hxs & Hys).
  assert (Hall : Forall (fun c => (0 <= c <= inject_Z M)%Q) (bbox o)).
  { apply (proj1 (Forall_of_slices _ (bbox o))).
    - eapply Forall_impl; [| exact Hxs]. cbn beta. intros x [Hx0 Hx1].
      split; [exact Hx0 |]. apply Qle_trans with (y := inject_Z (fst (size im)));
        [exact Hx1 | rewrite <- Zle_Qle; lia].
    - eapply Forall_impl; [| exact Hys]. cbn beta. intros y [Hy0 Hy1].
      split; [exact Hy0 |]. apply Qle_trans with (y := inject_Z (snd (size im)));
        [exact Hy1 | rewrite <- Zle_Qle; lia]. }
  eapply Forall_impl; [| exact Hall]. cbn beta.
  intros c Hc. apply (fits_scaled c M scale); assumption.
Qed.

(** With class ids and coordinates in range the map of a well-formed input
    is built, at the size of the image divided by the scale. *)
Lemma build_returns `{Pillow} (im : image) (markup : list Markup) (scale : Z) :
  well_formed_input im markup -> markup_in_range scale markup -> 0 < scale ->
  (scale | fst (size im)) -> (scale | snd (size im)) ->
  exists seg,
    SegmapManager.build_segmentation_map im markup scale false = Return seg /\
    size seg = (fst (size im) / scale, snd (size im) / scale).
Proof.
  intros (Hw & Hh & Hmk) Hrange Hs Hdw Hdh.
  rewrite build_segmentation_map_divisible by (assumption || lia).
  destruct (draw_markup_last_wins scale false markup
              (blank_image (fst (size im) / scale) (snd (size im) / scale)))
    as (seg & Eseg & Hsize & _).
  { right. eapply Forall_impl; [| exact Hmk]. cbn beta. tauto. }
  { exact Hrange. }
  exists seg. split; [exact Eseg | exact Hsize].
Qed.

(** For a configuration whose scale divides its side multiple and whose
    side multiple divides its cap, a cap that fits in 32 bits, the
    preparation of a well-formed input (markup inside the image) returns,
    with or without an augmentation that keeps inputs well formed: the
    image it returns has dimensions that are multiples of the side
    multiple within the cap, and the segmentation map has exactly these
    dimensions divided by the scale.  The assertion on the dimensions
    cannot fail. *)
Theorem prepare_image_and_target_returns `{Pillow} `{Augmentation}
    (im : image) (markup : list Markup) (nc : net_config) (augment : bool) :
  well_formed_input im markup ->
  0 < get_scale nc -> 0 < get_side_multiple nc -> 0 < get_max_side nc ->
  get_max_side nc <= int32_max ->
  (get_scale nc | get_side_multiple nc) ->
  (get_side_multiple nc | get_max_side nc) ->
  (forall im' markup',
     well_formed_input im' markup' ->
     well_formed_input (get_modified_image im' markup' nc)
                       (get_modified_markup im' markup' nc)) ->
  exists rescaled_image rescaled_markup segmentation_map,
    SegmapManager.prepare_image_and_target im markup nc augment
    = Return (rescaled_image, rescaled_markup, segmentation_map) /\
    (get_side_multiple nc | fst (size rescaled_image)) /\
    (get_side_multiple nc | snd (size rescaled_image)) /\
    Z.max (fst (size rescaled_image)) (snd (size rescaled_image))
    <= get_max_side nc /\
    size segmentation_map
    = (fst (size rescaled_image) / get_scale nc,
       snd (size rescaled_image) / get_scale nc).
Proof.
  intros Hwf Hs Hm HM HM32 Hsm HmM Haug.
  unfold SegmapManager.prepare_image_and_target.
  assert (Hin : exists im1 markup1,
             (if augment then SegmapManager._augment im markup nc
              else Return (im, markup)) = Return (im1, markup1) /\
             well_formed_input im1 markup1).
  { destruct augment.
    - unfold SegmapManager._augment.
      destruct (rescale_returns im markup nc None Hwf Hm HM HmM)
        as (im0 & markup0 & E0 & _ & _ & _ & Hwf0).
      rewrite E0. cbn [bind]. eexists _, _. split; [reflexivity |].
      apply Haug, Hwf0.
    - eexists _, _. split; [reflexivity | exact Hwf]. }
  destruct Hin as (im1 & markup1 & -> & Hwf1). cbn [bind].
  destruct (rescale_returns im1 markup1 nc None Hwf1 Hm HM HmM)
    as (rim & rmk & E & HdW & HdH & Hcap & Hwfr).
  rewrite E. cbn [bind].
  destruct (build_returns rim rmk (get_scale nc) Hwfr)
    as (seg & Eseg & Hsize);
    [ apply (well_formed_in_range rim rmk (get_max_side nc)); assumption
    | exact Hs
    | eapply Z.divide_trans; eassumption
    | eapply Z.divide_trans; eassumption |].
  rewrite Eseg. cbn [bind].
  exists rim, rmk, seg. split; [reflexivity |].
  split; [exact HdW |]. split; [exact HdH |]. split; [exact Hcap | exact Hsize].
Qed.

Lemma prepare_image_and_target_returns_witness :
  exists rescaled_image rescaled_markup segmentation_map,
    @SegmapManager.prepare_image_and_target sample_pillow no_augmentation
      (blank_image 2000 1000) scenario_markup usual_config true
    = Return (rescaled_image, rescaled_markup, segmentation_map) /\
    (32 | fst (size rescaled_image)) /\
    (32 | snd (size rescaled_image)) /\
    Z.max (fst (size rescaled_image)) (snd (size rescaled_image)) <= 512 /\
    size segmentation_map
    = (fst (size rescaled_image) / 4, snd (size rescaled_image) / 4).
Proof.
  apply (@prepare_image_and_target_returns sample_pillow no_augmentation
           (blank_image 2000 1000) scenario_markup usual_config true);
    cbn [usual_config get_scale get_side_multiple get_max_side].
  - split; [cbn; lia |]. split; [cbn; lia |].
    unfold scenario_markup, inside_image.
    repeat constructor; vm_compute; discriminate.
  - lia.
  - lia.
  - lia.
  - vm_compute. discriminate.
  - exists 8. reflexivity.
  - exists 16. reflexivity.
  - intros im' markup' Hwf. exact Hwf.
Defined.

(** ** Postprocessing *)

Lemma get_contours_and_boxes_eq `{OpenCV} (seg_map : image) (min_area : Q) :
  Utils.get_contours_and_boxes seg_map min_area
  = Return
      (filter (fun cnt => Qgtb (contourArea cnt) min_area) (findContours seg_map),
       map (fun cnt => reshape8 (boxPoints (minAreaRect cnt)))
           (filter (fun cnt => Qgtb (contourArea cnt) min_area)
                   (findContours seg_map))).
Proof.
  unfold Utils.get_contours_and_boxes.
  rewrite !length_map, Nat.eqb_refl. cbn [py_assert bind].
  rewrite map_map. reflexivity.
Qed.

Lemma reshape8_length (corners : point * point * point * point) :
  length (reshape8 corners) = 8%nat.
Proof. destruct corners as [[[p1 p2] p3] p4]. reflexivity. Qed.

(** Without class scores, postprocessing always returns: one markup object
    per contour whose area is strictly above the threshold, each without
    class and with 8 integer coordinates; nothing above the threshold
    gives the empty list. *)
Theorem postprocess_detects `{OpenCV} `{FloatArrays} (seg_map : image)
    (scale : Z) (min_area_threshold : Q) :
  exists found,
    SegmapManager.postprocess seg_map None scale min_area_threshold
    = Return found /\
    length found
    = length (filter (fun cnt => Qgtb (contourArea cnt) min_area_threshold)
                     (findContours seg_map)) /\
    Forall (fun o => object_type o = None /\ length (bbox o) = 8%nat /\
                     Forall is_integer (bbox o)) found /\
    ((forall cnt, In cnt (findContours seg_map) ->
                  (contourArea cnt <= min_area_threshold)%Q) ->
     found = []).
Proof.
  unfold SegmapManager.postprocess. rewrite get_contours_and_boxes_eq.
  cbn [bind]. eexists. split; [reflexivity |].
  set (kept := filter (fun cnt => Qgtb (contourArea cnt) min_area_threshold)
                      (findContours seg_map)).
  split; [rewrite !length_map; reflexivity |]. split.
  - rewrite !map_map. apply Forall_map. apply Forall_forall. intros cnt _.
    cbn [object_type bbox]. split; [reflexivity |].
    unfold SegmapManager.scale_box_up. rewrite !length_map.
    split; [apply reshape8_length |].
    apply Forall_map. apply Forall_map. apply Forall_forall.
    intros c _. eexists. reflexivity.
  - intros Hsmall.
    assert (Hkept : kept = []).
    { unfold kept. induction (findContours seg_map) as [| cnt rest IH];
        [reflexivity |].
      cbn [filter]. rewrite (Qgtb_false _ _ (Hsmall cnt (or_introl eq_refl))).
      apply IH. intros c Hc. apply Hsmall. right. exact Hc. }
    rewrite Hkept. reflexivity.
Qed.

Lemma map_result_length {A B : Type} (f : A -> result B) (l : list A) (r : list B) :
  map_result f l = Return r -> length r = length l.
Proof.
  intros E. apply map_result_inv in E.
  induction E; cbn [length]; [reflexivity | f_equal; assumption].
Qed.

Lemma map_fst_combine {A B : Type} (l : list A) (l' : list B) :
  length l = length l' -> map fst (combine l l') = l.
Proof.
  revert l'. induction l as [| a t IH]; intros [| b t'] Hlen;
    try discriminate Hlen; [reflexivity |].
  cbn [combine map fst]. f_equal. apply IH. injection Hlen as Hlen. exact Hlen.
Qed.

(** Class scores change neither the number of objects nor their boxes:
    whenever postprocessing with scores returns, its objects all carry a
    class and their boxes are, in order, the boxes returned without
    scores. *)
Theorem postprocess_classes_keep_boxes `{OpenCV} `{FloatArrays}
    (seg_map : image) (seg_map_class_logits : scores) (scale : Z)
    (min_area_threshold : Q) (classified : list Markup) :
  SegmapManager.postprocess seg_map (Some seg_map_class_logits) scale
    min_area_threshold = Return classified ->
  exists found,
    SegmapManager.postprocess seg_map None scale min_area_threshold
    = Return found /\
    map bbox classified = map bbox found /\
    Forall (fun o => exists class_id, object_type o = Some class_id) classified.
Proof.
  unfold SegmapManager.postprocess. rewrite get_contours_and_boxes_eq.
  cbn [bind]. intros E. bind_inv E. bind_inv E. injection E as <-.
  eexists. split; [reflexivity |].
  apply map_result_length in Er0.
  split.
  - rewrite !map_map. cbn [bbox].
    rewrite <- (map_map fst (map inject_Z)). rewrite map_fst_combine.
    + rewrite !map_map. reflexivity.
    + rewrite !length_map. symmetry. exact Er0.
  - apply Forall_map. apply Forall_forall. intros p _.
    eexists. reflexivity.
Qed.

Lemma postprocess_classes_keep_boxes_witness :
  exists classified found,
    @SegmapManager.postprocess sample_opencv sample_float_arrays marked_map
      (Some [1 # 4; 3 # 4; 1 # 2]) 4 5 = Return classified /\
    @SegmapManager.postprocess sample_opencv sample_float_arrays marked_map
      None 4 5 = Return found /\
    map bbox classified = map bbox found /\
    Forall (fun o => exists class_id, object_type o = Some class_id) classified.
Proof.
  destruct (@SegmapManager.postprocess sample_opencv sample_float_arrays
              marked_map (Some [1 # 4; 3 # 4; 1 # 2]) 4 5)
    as [classified | e] eqn:E.
  - destruct (@postprocess_classes_keep_boxes sample_opencv sample_float_arrays
                _ _ _ _ _ E) as (found & Efound & Hboxes & Hclasses).
    exists classified, found. split; [reflexivity |].
    split; [exact Efound |]. split; [exact Hboxes | exact Hclasses].
  - vm_compute in E. discriminate E.
Defined.

(** The stand-ins at work: the square contour of area 9 is kept at the
    threshold 5, scaled by 4 and given the class with the largest score. *)
Example postprocess_marked_map :
  @SegmapManager.postprocess sample_opencv sample_float_arrays marked_map
    (Some [1 # 4; 3 # 4; 1 # 2]) 4 5
  = Return [ClassifiedObjectMarkup (map inject_Z [0; 0; 12; 0; 12; 12; 0; 12]) 1].
Proof. vm_compute. reflexivity. Qed.

Lemma filter_filter_implied {A : Type} (p q : A -> bool) (l : list A) :
  (forall a, p a = true -> q a = true) ->
  filter p (filter q l) = filter p l.
Proof.
  intros Himp. induction l as [| a t IH]; cbn [filter]; [reflexivity |].
  destruct (q a) eqn:Eq; cbn [filter].
  - rewrite IH. reflexivity.
  - destruct (p a) eqn:Ep; [| exact IH].
    rewrite (Himp a Ep) in Eq. discriminate Eq.
Qed.

(** Raising the threshold only removes contours: the contours kept at the
    higher threshold are those kept at the lower one whose area is above
    the higher threshold, in the same order. *)
Theorem get_contours_and_boxes_threshold_monotone `{OpenCV} (seg_map : image)
    (low high : Q) :
  (low <= high)%Q ->
  exists cnts_low boxes_low cnts_high boxes_high,
    Utils.get_contours_and_boxes seg_map low = Return (cnts_low, boxes_low) /\
    Utils.get_contours_and_boxes seg_map high = Return (cnts_high, boxes_high) /\
    cnts_high = filter (fun cnt => Qgtb (contourArea cnt) high) cnts_low /\
    (length cnts_high <= length cnts_low)%nat /\
    incl cnts_high cnts_low.
Proof.
  intros Hle. rewrite !get_contours_and_boxes_eq.
  eexists _, _, _, _. split; [reflexivity |]. split; [reflexivity |].
  assert (Hfilter :
    filter (fun cnt => Qgtb (contourArea cnt) high) (findContours seg_map)
    = filter (fun cnt => Qgtb (contourArea cnt) high)
        (filter (fun cnt => Qgtb (contourArea cnt) low) (findContours seg_map))).
  { symmetry. apply filter_filter_implied. intros cnt Hhigh.
    apply Qgtb_lt in Hhigh. apply Qgtb_lt.
    apply Qle_lt_trans with (y := high); assumption. }
  split; [exact Hfilter |]. rewrite Hfilter.
  split; [apply filter_length_le | apply incl_filter].
Qed.

Lemma get_contours_and_boxes_threshold_monotone_witness :
  exists cnts_low boxes_low cnts_high boxes_high,
    @Utils.get_contours_and_boxes sample_opencv marked_map 5
    = Return (cnts_low, boxes_low) /\
    @Utils.get_contours_and_boxes sample_opencv marked_map 10
    = Return (cnts_high, boxes_high) /\
    cnts_high = filter (fun cnt => Qgtb (@contourArea sample_opencv cnt) 10) cnts_low /\
    (length cnts_high <= length cnts_low)%nat /\
    incl cnts_high cnts_low.
Proof.
  apply (@get_contours_and_boxes_threshold_monotone sample_opencv marked_map 5 10).
  vm_compute. discriminate.
Defined.

(** ** Finding the image of a markup file *)

(** The image returned is the candidate with the first extension, in the
    order .png, .tiff, .tif, .bmp, .jpg, whose file exists: later
    extensions are not looked at. *)
Theorem find_corresponding_image_first_match `{FileSystem}
    (images_folder_path fname_without_ext : string)
    (earlier later : list string) (image_ext : string) :
  Utils.image_exts = earlier ++ image_ext :: later ->
  path_exists (path_join images_folder_path
                 (String.append fname_without_ext image_ext)) = true ->
  Forall (fun ext =>
            path_exists (path_join images_folder_path
                           (String.append fname_without_ext ext)) = false)
         earlier ->
  Utils.find_corresponding_image images_folder_path fname_without_ext
  = Return (path_join images_folder_path
              (String.append fname_without_ext image_ext)).
Proof.
  intros Hexts Hexists Hearlier. unfold Utils.find_corresponding_image.
  rewrite Hexts.
  rewrite (find_skip_unpainted _ earlier (image_ext :: later) Hearlier).
  cbn [find]. rewrite Hexists. reflexivity.
Qed.

Lemma find_corresponding_image_first_match_witness :
  @Utils.find_corresponding_image sample_folder "scans" "page1"
  = Return "scans/page1.bmp"%string.
Proof.
  apply (@find_corresponding_image_first_match sample_folder "scans" "page1"
           [".png"; ".tiff"; ".tif"]%string [".jpg"%string] ".bmp"%string).
  - reflexivity.
  - reflexivity.
  - repeat constructor.
Defined.

(** The lookup fails exactly when no candidate exists, always with a
    [ValueError] that names the file; a path it returns exists. *)
Theorem find_corresponding_image_fails_iff_missing `{FileSystem}
    (images_folder_path fname_without_ext : string) :
  (Utils.find_corresponding_image images_folder_path fname_without_ext
   = Raise (ValueError
              (String.append "Image corresponding to fname "
                 (String.append fname_without_ext " not found (skipping markup)")))
   <-> forall ext, In ext Utils.image_exts ->
                   path_exists (path_join images_folder_path
                                  (String.append fname_without_ext ext)) = false) /\
  (forall e,
     Utils.find_corresponding_image images_folder_path fname_without_ext = Raise e ->
     e = ValueError
           (String.append "Image corresponding to fname "
              (String.append fname_without_ext " not found (skipping markup)"))) /\
  (forall p,
     Utils.find_corresponding_image images_folder_path fname_without_ext = Return p ->
     path_exists p = true).
Proof.
  unfold Utils.find_corresponding_image.
  destruct (find _ Utils.image_exts) as [ext |] eqn:E.
  - destruct (find_some _ _ E) as [Hin Hexists].
    split; [split |]; [discriminate | | split].
    + intros Hnone. rewrite (Hnone ext Hin) in Hexists. discriminate Hexists.
    + discriminate.
    + intros p Ep. injection Ep as <-. exact Hexists.
  - split; [split |]; [| | split].
    + intros _ ext Hin. exact (find_none _ _ E ext Hin).
    + reflexivity.
    + intros e Ee. injection Ee as <-. reflexivity.
    + discriminate.
Qed.

(** ** Rescaling boxes *)

Lemma broadcast8_of_8 {A : Type} (a : list A) :
  length a = 8%nat -> broadcast8 a = Return a.
Proof.
  intros Hlen. unfold broadcast8. rewrite Hlen. cbn [Nat.eqb].
  destruct a as [| x [| y t]]; try discriminate Hlen; reflexivity.
Qed.

(** On boxes of 8 coordinates [rescale_bboxes] is [rescale_bbox] box by
    box, the empty list included, and returns one box of 8 integers per
    box. *)
Theorem rescale_bboxes_rowwise `{FloatArrays} (bboxes : list (list Q))
    (xscale yscale : Q) :
  Forall (fun bbox => length bbox = 8%nat) bboxes ->
  Utils.rescale_bboxes bboxes xscale yscale
  = map_result (fun bbox => Utils.rescale_bbox bbox xscale yscale) bboxes /\
  exists rescaled,
    Utils.rescale_bboxes bboxes xscale yscale = Return rescaled /\
    length rescaled = length bboxes /\
    Forall (fun bbox => length bbox = 8%nat) rescaled.
Proof.
  intros Hrows.
  assert (Hsame :
    Utils.rescale_bboxes bboxes xscale yscale
    = map_result (fun bbox => Utils.rescale_bbox bbox xscale yscale) bboxes).
  { unfold Utils.rescale_bboxes. destruct bboxes as [| first rest]; [reflexivity |].
    replace (forallb _ (first :: rest)) with true; [reflexivity |].
    symmetry. apply forallb_forall. intros row Hrow.
    rewrite Forall_forall in Hrows.
    rewrite (Hrows row Hrow), (Hrows first (or_introl eq_refl)). reflexivity. }
  split; [exact Hsame |]. rewrite Hsame. clear Hsame.
  induction Hrows as [| row rest Hrow _ (r & Er & Hlen & Hall)].
  - exists []. repeat split. constructor.
  - cbn [map_result]. unfold Utils.rescale_bbox at 1.
    rewrite (broadcast8_of_8 row Hrow). cbn [bind]. rewrite Er. cbn [bind].
    eexists. split; [reflexivity |].
    split; [cbn [length]; rewrite Hlen; reflexivity |].
    constructor; [| exact Hall].
    rewrite length_map, length_combine, Hrow. reflexivity.
Qed.

Lemma rescale_bboxes_rowwise_witness :
  @Utils.rescale_bboxes sample_float_arrays
    [[10; 10; 50; 10; 50; 50; 10; 50]%Q] (1 # 4) (1 # 2)
  = map_result (fun bbox => @Utils.rescale_bbox sample_float_arrays bbox (1 # 4) (1 # 2))
      [[10; 10; 50; 10; 50; 50; 10; 50]%Q] /\
  exists rescaled,
    @Utils.rescale_bboxes sample_float_arrays
      [[10; 10; 50; 10; 50; 50; 10; 50]%Q] (1 # 4) (1 # 2) = Return rescaled /\
    length rescaled = length [[10; 10; 50; 10; 50; 50; 10; 50]%Q] /\
    Forall (fun bbox => length bbox = 8%nat) rescaled.
Proof.
  apply (@rescale_bboxes_rowwise sample_float_arrays). repeat constructor.
Defined.

(** A box that has neither 8 coordinates nor 1 is refused. *)
Theorem rescale_bbox_wrong_length `{FloatArrays} (bbox : list Q)
    (xscale yscale : Q) :
  length bbox <> 8%nat -> length bbox <> 1%nat ->
  exists msg, Utils.rescale_bbox bbox xscale yscale = Raise (ValueError msg).
Proof.
  intros H8 H1. unfold Utils.rescale_bbox, broadcast8.
  apply Nat.eqb_neq in H8. rewrite H8.
  destruct bbox as [| x [| y t]];
    [eexists; reflexivity | | eexists; reflexivity].
  exfalso. apply H1. reflexivity.
Qed.

Lemma rescale_bbox_wrong_length_witness :
  exists msg,
    @Utils.rescale_bbox sample_float_arrays [10; 10; 50; 10; 50; 50]%Q (1 # 4) (1 # 2)
    = Raise (ValueError msg).
Proof.
  apply (@rescale_bbox_wrong_length sample_float_arrays); cbn; lia.
Defined.

(** ** Arrays to RGB images *)

Lemma removelast_length {A : Type} (l : list A) :
  length (removelast l) = (length l - 1)%nat.
Proof.
  induction l as [| a [| b t] IH]; [reflexivity | reflexivity |].
  cbn [removelast length] in *. rewrite IH. lia.
Qed.

(** [pillow_rgb_fromarray] accepts two-dimensional arrays and
    three-dimensional arrays with 1 or 3 channels, and returns an RGB image
    for them; every other array, one with 4 channels for instance, fails
    the assertion. *)
Theorem pillow_rgb_fromarray_shapes (img : ndarray) :
  if (ndim img =? 2) ||
     ((ndim img =? 3) && ((last (shape img) 0 =? 3) || (last (shape img) 0 =? 1)))
  then exists pillow_image,
         Utils.pillow_rgb_fromarray img = Return pillow_image /\
         image_mode pillow_image = "RGB"%string
  else Utils.pillow_rgb_fromarray img = Raise (AssertionError None).
Proof.
  unfold Utils.pillow_rgb_fromarray.
  destruct (ndim img =? 3) eqn:E3.
  - apply Z.eqb_eq in E3. replace (ndim img =? 2) with false
      by (symmetry; apply Z.eqb_neq; lia).
    cbn [orb andb].
    destruct (last (shape img) 0 =? 3) eqn:El3; cbn [orb].
    + eexists. split; reflexivity.
    + destruct (last (shape img) 0 =? 1) eqn:El1.
      * assert (Hsq : (ndim (squeeze_last img) =? 2) = true).
        { apply Z.eqb_eq. unfold ndim, squeeze_last in *. cbn [shape].
          rewrite removelast_length. lia. }
        rewrite Hsq. cbn [py_assert bind]. eexists. split; reflexivity.
      * rewrite E3. reflexivity.
  - cbn [andb orb]. rewrite orb_false_r.
    destruct (ndim img =? 2); cbn [py_assert bind]; [| reflexivity].
    eexists. split; reflexivity.
Qed.

(** ** Normalising the scores of a pixel *)

Lemma Rmax_shift (a b c : R) : Rmax (a + c) (b + c) = (Rmax a b + c)%R.
Proof.
  unfold Rmax. destruct (Rle_dec (a + c) (b + c)), (Rle_dec a b);
    try reflexivity; exfalso; Lra.lra.
Qed.

Lemma maximum_shift (x c : R) (rest : list R) :
  fold_right Rmax (x + c)%R (map (fun v => (v + c)%R) rest)
  = (fold_right Rmax x rest + c)%R.
Proof.
  induction rest as [| y t IH]; cbn [map fold_right]; [reflexivity |].
  rewrite IH. apply Rmax_shift.
Qed.

Lemma sum_divided (d : R) (l : list R) :
  fold_right Rplus 0%R (map (fun v => (v / d)%R) l)
  = (fold_right Rplus 0%R l / d)%R.
Proof.
  induction l as [| y t IH]; cbn [map fold_right].
  - unfold Rdiv. rewrite Rmult_0_l. reflexivity.
  - rewrite IH. unfold Rdiv. ring.
Qed.

Lemma sum_of_exponentials_positive (x : R) (rest : list R) :
  (0 < fold_right Rplus 0 (map exp (x :: rest)))%R.
Proof.
  cbn [map fold_right].
  assert (Hrest : (0 <= fold_right Rplus 0 (map exp rest))%R).
  { induction rest as [| y t IH]; cbn [map fold_right]; [apply Rle_refl |].
    pose proof (exp_pos y). Lra.lra. }
  pose proof (exp_pos x). Lra.lra.
Qed.

Lemma np_softmax_values (x : R) (rest : list R) (axis : Z) :
  @Utils.np_softmax real_scores (x :: rest) axis
  = Return
      (map (fun v => (v / fold_right Rplus 0
                         (map exp (map (fun u => u - fold_right Rmax x rest)
                                       (x :: rest))))%R)
           (map exp (map (fun u => (u - fold_right Rmax x rest)%R) (x :: rest)))).
Proof. reflexivity. Qed.

(** C8. With floats taken as real numbers, [np_softmax] of a non-empty
    score vector returns values that sum to 1, and adding the same constant
    to every score does not change what it returns. *)
Theorem np_softmax_normalizes (logits : list R) :
  logits <> [] ->
  exists ps,
    @Utils.np_softmax real_scores logits (-1) = Return ps /\
    fold_right Rplus 0%R ps = 1%R /\
    forall c,
      @Utils.np_softmax real_scores (map (fun v => (v + c)%R) logits) (-1)
      = Return ps.
Proof.
  intros Hne. destruct logits as [| x rest]; [contradiction |].
  eexists. split; [apply np_softmax_values |]. split.
  - rewrite sum_divided.
    pose proof (sum_of_exponentials_positive
                  (x - fold_right Rmax x rest)
                  (map (fun v => (v - fold_right Rmax x rest)%R) rest)) as Hpos.
    apply Rinv_r. apply Rgt_not_eq. exact Hpos.
  - intros c. cbn [map]. rewrite np_softmax_values, maximum_shift.
    change ((x + c)%R :: map (fun v => (v + c)%R) rest)
      with (map (fun v => (v + c)%R) (x :: rest)).
    rewrite (map_map (fun v => (v + c)%R)).
    rewrite (map_ext (fun v => (v + c - (fold_right Rmax x rest + c))%R)
                     (fun v => (v - fold_right Rmax x rest)%R))
      by (intros v; ring).
    reflexivity.
Qed.

Lemma np_softmax_normalizes_witness :
  exists ps,
    @Utils.np_softmax real_scores [1; 2; 3]%R (-1) = Return ps /\
    fold_right Rplus 0%R ps = 1%R /\
    forall c,
      @Utils.np_softmax real_scores (map (fun v => (v + c)%R) [1; 2; 3]%R) (-1)
      = Return ps.
Proof. apply np_softmax_normalizes. discriminate. Defined.
